(** * sleap.nn.data: training-target generation, embedded in Rocq

    The module [sleap/nn/data.py] turns landmark coordinates into dense
    training targets (confidence maps, part affinity fields) and crops
    instance-centred patches.  This development embeds the functions of that
    module, and two helpers of [sleap/util.py], and states properties of
    them.

    Modelling conventions.
    - A float32 scalar is a value of [f32]: a finite real, [+Inf], [-Inf] or
      [NaN].  Finite arithmetic is exact (rounding, overflow and the sign of
      zero are abstracted away); every operation follows IEEE-754 on the
      special values, which is what the NaN conventions of the module rely on.
      A value formula is therefore the formula the code evaluates, read over
      the reals.  Where rounding, overflow or underflow could change what a
      statement concludes (a shape, whether a pixel is on, a value that is
      exactly 1, a bound), the statement keeps to inputs on which float32
      computes exactly or stays in range, and says so.
    - A tensor is a nested list, outermost axis first.  The trailing axis of
      length 2 that holds an [x, y] pair is a Rocq pair ([xy]).
    - A Python call that can raise returns a [result]. *)

From Stdlib Require Import Reals Lra Lia ZArith Bool String List Permutation.
Import ListNotations.
Open Scope R_scope.

(** ** Exceptions *)

Inductive exn : Type :=
| TypeError
| UnboundLocalError
| AttributeError
| ValueError
| IndexError
| ZeroDivisionError
| InvalidArgumentError.

Inductive result (A : Type) : Type :=
| Ok (a : A)
| Raise (e : exn).

Arguments Ok {A} a.
Arguments Raise {A} e.

Definition bind {A B : Type} (c : result A) (k : A -> result B) : result B :=
  match c with
  | Ok a => k a
  | Raise e => Raise e
  end.

Notation "x <- c ;; k" := (bind c (fun x => k))
  (at level 61, c at next level, right associativity).

Definition raises {A : Type} (c : result A) : Prop := exists e, c = Raise e.

(** ** float32 scalars *)

Inductive f32 : Type :=
| Fin (r : R)
| PInf
| NInf
| NaN.

(** An [x, y] pair: the trailing axis of length 2. *)
Abbreviation xy := (f32 * f32)%type (only parsing).

(** The sign of a real, for the sign of an infinite product or quotient. *)
Definition Rsgn (r : R) : comparison :=
  match total_order_T r 0 with
  | inleft (left _) => Lt
  | inleft (right _) => Eq
  | inright _ => Gt
  end.

Definition inf_of_sign (c : comparison) : f32 :=
  match c with
  | Lt => NInf
  | Eq => NaN
  | Gt => PInf
  end.

Definition Rleb (a b : R) : bool := if Rle_dec a b then true else false.

Definition is_nan (a : f32) : bool :=
  match a with NaN => true | _ => false end.

Definition is_finite (a : f32) : bool :=
  match a with Fin _ => true | _ => false end.

Definition fneg (a : f32) : f32 :=
  match a with
  | Fin x => Fin (- x)
  | PInf => NInf
  | NInf => PInf
  | NaN => NaN
  end.

Definition fadd (a b : f32) : f32 :=
  match a, b with
  | NaN, _ | _, NaN => NaN
  | Fin x, Fin y => Fin (x + y)
  | PInf, NInf | NInf, PInf => NaN
  | PInf, _ | _, PInf => PInf
  | NInf, _ | _, NInf => NInf
  end.

Definition fsub (a b : f32) : f32 := fadd a (fneg b).

Definition fmul (a b : f32) : f32 :=
  match a, b with
  | NaN, _ | _, NaN => NaN
  | Fin x, Fin y => Fin (x * y)
  | Fin x, PInf | PInf, Fin x => inf_of_sign (Rsgn x)
  | Fin x, NInf | NInf, Fin x => inf_of_sign (CompOpp (Rsgn x))
  | PInf, PInf | NInf, NInf => PInf
  | PInf, NInf | NInf, PInf => NInf
  end.

(** Division; a zero divisor counts as [+0]. *)
Definition fdiv (a b : f32) : f32 :=
  match a, b with
  | NaN, _ | _, NaN => NaN
  | Fin x, Fin y =>
      if Req_dec_T y 0 then inf_of_sign (Rsgn x) else Fin (x / y)
  | Fin _, PInf | Fin _, NInf => Fin 0
  | PInf, Fin y => if Rlt_dec y 0 then NInf else PInf
  | NInf, Fin y => if Rlt_dec y 0 then PInf else NInf
  | PInf, PInf | PInf, NInf | NInf, PInf | NInf, NInf => NaN
  end.

Definition fabs (a : f32) : f32 :=
  match a with
  | Fin x => Fin (Rabs x)
  | PInf | NInf => PInf
  | NaN => NaN
  end.

Definition fsqrt (a : f32) : f32 :=
  match a with
  | Fin x => if Rlt_dec x 0 then NaN else Fin (sqrt x)
  | PInf => PInf
  | NInf | NaN => NaN
  end.

Definition fexp (a : f32) : f32 :=
  match a with
  | Fin x => Fin (exp x)
  | PInf => PInf
  | NInf => Fin 0
  | NaN => NaN
  end.

(** [x ** 2]. *)
Definition fsquare (a : f32) : f32 := fmul a a.

(** Comparisons; any comparison with [NaN] is false. *)
Definition fle (a b : f32) : bool :=
  match a, b with
  | NaN, _ | _, NaN => false
  | Fin x, Fin y => Rleb x y
  | NInf, _ | _, PInf => true
  | _, _ => false
  end.

Definition fge (a b : f32) : bool := fle b a.

Definition fmin (a b : f32) : f32 := if fle a b then a else b.
Definition fmax (a b : f32) : f32 := if fle a b then b else a.

(** [tf.cast(mask, tf.float32)]. *)
Definition cast_bool (b : bool) : f32 := if b then Fin 1 else Fin 0.

(** [tf.where(tf.math.is_nan(v), 0.0, v)] on one element. *)
Definition nan_to_zero (a : f32) : f32 := if is_nan a then Fin 0 else a.

(** ** Nested-list tensors and broadcasting *)

Fixpoint zip_with {A B C : Type} (f : A -> B -> C) (a : list A) (b : list B)
  : list C :=
  match a, b with
  | x :: a', y :: b' => f x y :: zip_with f a' b'
  | _, _ => []
  end.

(** Broadcasting of a binary operation along one axis: an axis of length 1
    is stretched to the length of the other operand's axis.  Every use below
    has axes that are equal or of length 1, so the last case only sees equal
    lengths. *)
Definition bcast {A B C : Type} (f : A -> B -> C) (a : list A) (b : list B)
  : list C :=
  match a, b with
  | [x], _ => map (f x) b
  | _, [y] => map (fun x => f x y) a
  | _, _ => zip_with f a b
  end.

(** [tf.expand_dims(t, 1)]. *)
Definition expand_dims_1 {A : Type} (t : list A) : list (list A) :=
  map (fun row => [row]) t.

(** ** Python scalars and [tf.range] *)

(** Python's [a / b] on floats. *)
Definition py_truediv (a b : R) : result R :=
  if Req_dec_T b 0 then Raise ZeroDivisionError else Ok (a / b).

Definition Zceil (x : R) : Z := (- Int_part (- x))%Z.

(** [tf.range(0, limit, delta, dtype=tf.float32)]: [ceil(|limit / delta|)]
    samples [0, delta, 2 delta, ...]; the kernel rejects a zero step and a
    step that points away from the limit. *)
Definition range_size (limit : Z) (delta : R) : nat :=
  Z.to_nat (Zceil (Rabs (IZR limit / delta))).

Definition range_values (limit : Z) (delta : R) : list f32 :=
  map (fun i => Fin (INR i * delta)) (seq 0 (range_size limit delta)).

Definition tf_range (limit : Z) (delta : R) : result (list f32) :=
  if Req_dec_T delta 0 then Raise InvalidArgumentError
  else if Rlt_dec 0 delta then
    if (limit <? 0)%Z then Raise InvalidArgumentError
    else Ok (range_values limit delta)
  else
    if (0 <? limit)%Z then Raise InvalidArgumentError
    else Ok (range_values limit delta).

(** [mapM]: run a fallible function over a list, left to right. *)
Fixpoint mapM {A B : Type} (f : A -> result B) (l : list A) : result (list B) :=
  match l with
  | [] => Ok []
  | x :: l' => y <- f x ;; ys <- mapM f l' ;; Ok (y :: ys)
  end.

(** An index into an axis; out of range is an error of the kernel. *)
Definition index {A : Type} (l : list A) (i : nat) : result A :=
  match nth_error l i with
  | Some v => Ok v
  | None => Raise InvalidArgumentError
  end.

(** Broadcasting with the shape check made explicit, for operands whose
    shapes depend on the data. *)
Definition bcast_checked {A B C : Type} (f : A -> B -> result C)
  (a : list A) (b : list B) : result (list C) :=
  match a, b with
  | [x], _ => mapM (f x) b
  | _, [y] => mapM (fun x => f x y) a
  | _, _ =>
      if Nat.eqb (length a) (length b)
      then mapM (fun p => f (fst p) (snd p)) (combine a b)
      else Raise InvalidArgumentError
  end.

(** [tf.broadcast_to] along one axis. *)
Definition broadcast_axis {A : Type} (n : nat) (t : list A) : result (list A) :=
  match t with
  | [x] => Ok (repeat x n)
  | _ => if Nat.eqb (length t) n then Ok t else Raise InvalidArgumentError
  end.

(** ** Datasets *)

Inductive dtype : Type := float32 | float64 | uint8 | int32.

(** An array seen from Python: its shape, element type and flat contents. *)
Record ndarray : Type := mk_ndarray {
  shape : list nat;
  arr_dtype : dtype;
  flat : list f32
}.

Definition ndim (a : ndarray) : nat := length (shape a).

(** [tf.expand_dims(p, 0)]. *)
Definition expand_dims_0 (a : ndarray) : ndarray :=
  mk_ndarray (1%nat :: shape a) (arr_dtype a) (flat a).

(** A [tf.data.Dataset]: the sequence of its elements and their type. *)
Record Dataset : Type := mk_dataset {
  elements : list ndarray;
  output_types : dtype
}.

(** The conversion of a yielded array to the element type of the dataset.
    An array of that type is passed on as it is; for an array of another type
    the tag changes and the values stay the numbers they are (the rounding or
    truncation of the conversion is abstracted, like every rounding). *)
Definition dtype_eqb (a b : dtype) : bool :=
  match a, b with
  | float32, float32 | float64, float64 | uint8, uint8 | int32, int32 => true
  | _, _ => false
  end.

Definition astype (t : dtype) (a : ndarray) : ndarray :=
  if dtype_eqb (arr_dtype a) t then a
  else mk_ndarray (shape a) t (flat a).

(** [tf.data.Dataset.from_generator(gen, output_types=...)]: every yielded
    element is converted to [output_types]. *)
Definition from_generator (gen : list ndarray) (t : dtype) : Dataset :=
  mk_dataset (map (astype t) gen) t.

(** The slices of an array along its first axis. *)
Fixpoint chunks (fuel size : nat) (l : list f32) : list (list f32) :=
  match fuel with
  | O => []
  | S fuel' => firstn size l :: chunks fuel' size (skipn size l)
  end.

(** [tf.data.Dataset.from_tensor_slices(a)]; a scalar cannot be sliced. *)
Definition from_tensor_slices (a : ndarray) : result Dataset :=
  match shape a with
  | [] => Raise ValueError
  | n :: rest =>
      Ok (mk_dataset
            (map (mk_ndarray rest (arr_dtype a))
               (chunks n (fold_right Nat.mul 1%nat rest) (flat a)))
            (arr_dtype a))
  end.

(** Python objects reached by attribute access from the module [tf]. *)
#[warnings="-register-all"]
Inductive pyobj : Type :=
| PyModule (attrs : list (string * pyobj))
| PyDatasetFn (f : ndarray -> result Dataset)
| PyOpaque.

Definition getattr (o : pyobj) (name : string) : result pyobj :=
  match o with
  | PyModule attrs =>
      match find (fun kv => String.eqb (fst kv) name) attrs with
      | Some kv => Ok (snd kv)
      | None => Raise AttributeError
      end
  | _ => Raise AttributeError
  end.

Definition call (o : pyobj) (a : ndarray) : result Dataset :=
  match o with
  | PyDatasetFn f => f a
  | _ => Raise TypeError
  end.

(** The part of the [tensorflow] namespace that this module refers to.
    [from_tensor_slices] lives under [tf.data.Dataset]; the top level has no
    attribute [tensor_slices]. *)
Definition tf : pyobj :=
  PyModule
    [ ("data"%string,
        PyModule
          [ ("Dataset"%string,
              PyModule
                [ ("from_tensor_slices"%string, PyDatasetFn from_tensor_slices);
                  ("from_generator"%string, PyOpaque);
                  ("zip"%string, PyOpaque) ]);
            ("experimental"%string, PyOpaque) ]);
      ("Tensor"%string, PyOpaque);
      ("ragged"%string, PyOpaque);
      ("math"%string, PyOpaque);
      ("linalg"%string, PyOpaque);
      ("image"%string, PyOpaque);
      ("float32"%string, PyOpaque);
      ("uint8"%string, PyOpaque);
      ("int32"%string, PyOpaque);
      ("py_function"%string, PyOpaque);
      ("reduce_min"%string, PyOpaque);
      ("reduce_max"%string, PyOpaque);
      ("reduce_sum"%string, PyOpaque);
      ("gather"%string, PyOpaque);
      ("gather_nd"%string, PyOpaque);
      ("where"%string, PyOpaque);
      ("constant"%string, PyOpaque);
      ("tile"%string, PyOpaque);
      ("reverse"%string, PyOpaque);
      ("cast"%string, PyOpaque);
      ("expand_dims"%string, PyOpaque);
      ("reshape"%string, PyOpaque);
      ("zeros_like"%string, PyOpaque);
      ("range"%string, PyOpaque);
      ("shape"%string, PyOpaque);
      ("split"%string, PyOpaque);
      ("squeeze"%string, PyOpaque);
      ("exp"%string, PyOpaque);
      ("stack"%string, PyOpaque);
      ("broadcast_to"%string, PyOpaque);
      ("abs"%string, PyOpaque) ].

(** The values [make_image_dataset] and [make_points_dataset] dispatch on
    with [isinstance]. *)
Inductive container : Type :=
| PyList (items : list ndarray)
| NpArray (a : ndarray)
| TfTensor (a : ndarray)
| PyOther.

(** [items[0]]. *)
Definition first_item (items : list ndarray) : result ndarray :=
  match items with
  | [] => Raise IndexError
  | a :: _ => Ok a
  end.

Definition make_image_dataset (images : container) : result Dataset :=
  match images with
  | PyList items =>
      a <- first_item items ;;
      Ok (from_generator items (arr_dtype a))
  | NpArray a | TfTensor a =>
      d <- getattr tf "data" ;;
      c <- getattr d "Dataset" ;;
      f <- getattr c "from_tensor_slices" ;;
      call f a
  | PyOther => Raise ValueError
  end.

Definition make_points_dataset (points : container) : result Dataset :=
  match points with
  | PyList items =>
      a <- first_item items ;;
      if Nat.eqb (ndim a) 2 then
        Ok (from_generator (map expand_dims_0 items) (arr_dtype a))
      else if Nat.eqb (ndim a) 3 then
        Ok (from_generator items (arr_dtype a))
      else Raise ValueError
  | NpArray a | TfTensor a =>
      f <- getattr tf "tensor_slices" ;;
      call f a
  | PyOther => Raise ValueError
  end.

(** ** Geometry *)

Definition xy_sub (a b : xy) : xy := (fsub (fst a) (fst b), fsub (snd a) (snd b)).
Definition xy_add (a b : xy) : xy := (fadd (fst a) (fst b), fadd (snd a) (snd b)).

(** [tf.ragged.boolean_mask(points, tf.math.is_finite(points))]: the mask has
    the rank of the data, so the innermost axis becomes ragged; each landmark
    keeps its finite coordinates, in order. *)
Definition mask_finite (points : list (list xy)) : list (list (list f32)) :=
  map (map (fun p => filter is_finite [fst p; snd p])) points.

Definition row_width {A : Type} (rows : list (list A)) : nat :=
  fold_right Nat.max 0%nat (map (@List.length A) rows).

(** The values found at position [j] of the rows that are long enough. *)
Definition column (rows : list (list f32)) (j : nat) : list f32 :=
  flat_map (fun r => match nth_error r j with Some v => [v] | None => [] end)
    rows.

(** The largest finite float32. *)
Definition f32_highest : R := (2 - / 2 ^ 23) * 2 ^ 127.

(** Reduction of one segment; an empty segment gets the documented filler. *)
Definition reduce_segment (op : f32 -> f32 -> f32) (empty : f32)
  (l : list f32) : f32 :=
  match l with
  | [] => empty
  | v :: l' => fold_left op l' v
  end.

(** [tf.reduce_min] / [tf.reduce_max] of a ragged tensor along axis 1: the
    output row of an instance is as long as its longest landmark row, and
    position [j] reduces the landmark rows that have a [j]-th value. *)
Definition ragged_reduce_axis1 (op : f32 -> f32 -> f32) (empty : f32)
  (rt : list (list (list f32))) : list (list f32) :=
  map (fun rows =>
         map (fun j => reduce_segment op empty (column rows j))
           (seq 0 (row_width rows)))
    rt.

(** [RaggedTensor.to_tensor()]: short rows are padded with zeros.  A nested
    list without rows carries no column count: the result for a tensor
    without instances, of shape (0, 0) in the code, is [[]] like every
    tensor without rows.  What is stated below about the functions that
    consume the centroids is stated for tensors with at least one
    instance. *)
Definition to_tensor (rt : list (list f32)) : list (list f32) :=
  map (fun r => r ++ repeat (Fin 0) (row_width rt - List.length r)) rt.

Definition get_bbox_centroid (points : list (list xy)) : list (list f32) :=
  let masked_pts := mask_finite points in
  let pts_min := ragged_reduce_axis1 fmin (Fin f32_highest) masked_pts in
  let pts_max := ragged_reduce_axis1 fmax (Fin (- f32_highest)) masked_pts in
  let centroids :=
    zip_with (zip_with (fun mx mn => fmul (Fin 0.5) (fadd mx mn)))
      pts_max pts_min in
  to_tensor centroids.

(** [tf.where] broadcasts its operands: the node coordinates have shape
    (n, 2) and the bounding-box centroids the shape [to_tensor] gave them.
    For a tensor without instances that shape is (0, 0), which does not
    broadcast against (0, 2). *)
Definition get_bbox_centroid_from_node_ind (points : list (list xy))
  (node_ind : nat) : result (list (list f32)) :=
  gathered <- mapM (fun inst => index inst node_ind) points ;;
  let centroids := map (fun p => [fst p; snd p]) gathered in
  let all_pts_centroids := get_bbox_centroid points in
  match all_pts_centroids with
  | [] => Raise InvalidArgumentError
  | _ :: _ =>
      bcast_checked
        (bcast_checked (fun c a => Ok (if is_nan c then a else c)))
        centroids all_pts_centroids
  end.

(** The centroids are a tensor of shape (n, 2); without rows it is read as
    (0, 2), for which the code returns a tensor of shape (0, 4). *)
Definition get_centered_bboxes (centroids : list (list f32))
  (box_width box_height : Z) : result (list (list f32)) :=
  let bbox_delta :=
    [[Fin (-0.5 * IZR box_height); Fin (-0.5 * IZR box_width);
      Fin (0.5 * IZR box_height); Fin (0.5 * IZR box_width)]] in
  bcast_checked (bcast_checked (fun a b => Ok (fadd a b)))
    (map (fun c => rev c ++ rev c) centroids) bbox_delta.

Definition normalize_bboxes (bboxes : list (list f32))
  (img_height img_width : Z) : result (list (list f32)) :=
  let img_bounds_norm :=
    [[Fin (IZR (img_height - 1)); Fin (IZR (img_width - 1));
      Fin (IZR (img_height - 1)); Fin (IZR (img_width - 1))]] in
  bcast_checked (bcast_checked (fun a b => Ok (fdiv a b)))
    bboxes img_bounds_norm.

Definition get_bbox_offsets (bboxes : list (list f32)) : list (list f32) :=
  map (fun b => rev (firstn 2 b)) bboxes.

(** The flat contents regrouped two by two ([tf.reshape(t, [-1, 1, 1, 2])]
    reads the trailing axis as an [xy] pair). *)
Fixpoint pairs (l : list f32) : result (list xy) :=
  match l with
  | [] => Ok []
  | a :: b :: l' => r <- pairs l' ;; Ok ((a, b) :: r)
  | [_] => Raise InvalidArgumentError
  end.

Definition pts_to_bbox (points : list (list xy)) (bboxes : list (list f32))
  : result (list (list (list xy))) :=
  let offsets := get_bbox_offsets bboxes in
  let points := [points] in
  offsets <- pairs (concat offsets) ;;
  Ok (bcast (bcast (bcast xy_sub)) points (map (fun o => [[o]]) offsets)).

(** ** Cropping *)

Definition image : Type := list (list (list f32)).

(** Values passed positionally between the Python functions below. *)
#[warnings="-register-all"]
Inductive pyval : Type :=
| PInt (z : Z)
| PBool (b : bool)
| PTuple (items : list pyval)
| PImage (img : image)
| PMatrix (m : list (list f32)).

(** A local variable is read after the branches that may have bound it. *)
Definition load_local {A : Type} (v : option A) : result A :=
  match v with
  | Some a => Ok a
  | None => Raise UnboundLocalError
  end.

(** [get_centered_bboxes(centroids, box_width, box_height)] as a callee:
    three required positional parameters, and arithmetic on the box sizes. *)
Definition call_get_centered_bboxes (args : list pyval)
  : result (list (list f32)) :=
  match args with
  | [PMatrix centroids; PInt box_width; PInt box_height] =>
      get_centered_bboxes centroids box_width box_height
  | _ => Raise TypeError
  end.

(** [tf.gather_nd(t, inds)] for index pairs. *)
Definition gather_nd {A : Type} (t : list (list A)) (inds : list (nat * nat))
  : result (list A) :=
  mapM (fun ij => row <- index t (fst ij) ;; index row (snd ij)) inds.

Section Cropping.

(** [tf.image.crop_and_resize(images, boxes, box_indices, crop_size,
    method="bilinear")], a kernel of the library. *)
Variable crop_and_resize :
  list image -> list (list f32) -> list Z -> Z * Z -> list image.

Definition crop_bboxes (img : image) (bboxes : list (list f32))
  (box_width box_height : Z) (normalize_image : bool)
  : result (list image) :=
  let img_height := Z.of_nat (List.length img) in
  let img_width := Z.of_nat (List.length (hd [] img)) in
  normalized_bboxes <- normalize_bboxes bboxes img_height img_width ;;
  let box_indices := map (fun _ => 0%Z) bboxes in
  let image_boxes :=
    crop_and_resize [img] normalized_bboxes box_indices
      (box_height, box_width) in
  Ok (if normalize_image
      then map (map (map (map (fun v => fdiv v (Fin 255))))) image_boxes
      else image_boxes).

(** [crop_bboxes(image, bboxes, box_width, box_height,
    normalize_image=True)] as a callee. *)
Definition call_crop_bboxes (args : list pyval) : result (list image) :=
  match args with
  | [PImage img; PMatrix bboxes; PInt box_width; PInt box_height] =>
      crop_bboxes img bboxes box_width box_height true
  | [PImage img; PMatrix bboxes; PInt box_width; PInt box_height;
     PBool normalize_image] =>
      crop_bboxes img bboxes box_width box_height normalize_image
  | _ => Raise TypeError
  end.

(** The two branches bind different locals: [instance_points] and
    [instance_images] are assigned in the [else] branch only, and read
    after the conditional. *)
Definition instance_crop (img : image) (points : list (list xy))
  (box_height box_width : Z) (use_ctr_node : bool) (ctr_node_ind : nat)
  (normalize_image : bool)
  : result (list image * list (list (list xy)) * list (list xy)) :=
  locals <-
    (if use_ctr_node then
       centroids <- get_bbox_centroid_from_node_ind points ctr_node_ind ;;
       Ok (None, None)
     else
       let centroids := get_bbox_centroid points in
       instance_bboxes <-
         call_get_centered_bboxes
           [PMatrix centroids; PTuple [PInt box_height; PInt box_width]] ;;
       instance_points <- pts_to_bbox points instance_bboxes ;;
       instance_images <-
         call_crop_bboxes
           [PImage img; PMatrix instance_bboxes;
            PTuple [PInt box_height; PInt box_width]] ;;
       Ok (Some instance_points, Some instance_images)) ;;
  instance_points <- load_local (fst locals) ;;
  let ctr_inds :=
    map (fun i => (i, i)) (seq 0 (List.length instance_points)) in
  instance_ctr_points <- gather_nd instance_points ctr_inds ;;
  instance_images <- load_local (snd locals) ;;
  Ok (instance_images, instance_points, instance_ctr_points).

End Cropping.

(** ** make_confmaps *)

(** [tf.split(points, 2, axis=-1)]: two tensors of shape [n, c, 1]. *)
Definition split_xy (points : list (list xy))
  : list (list (list f32)) * list (list (list f32)) :=
  (map (map (fun p => [fst p])) points, map (map (fun p => [snd p])) points).

(** [tf.squeeze(t, axis=-1)] on a rank-5 tensor whose last axis has length 1. *)
Definition squeeze_last (t : list (list (list (list (list f32)))))
  : list (list (list (list f32))) :=
  map (map (map (map (hd NaN)))) t.

Definition map4 {A B : Type} (f : A -> B) (t : list (list (list (list A))))
  : list (list (list (list B))) :=
  map (map (map (map f))) t.

Definition bcast4 {A B C : Type} (f : A -> B -> C)
  (a : list (list (list (list A)))) (b : list (list (list (list B))))
  : list (list (list (list C))) :=
  bcast (bcast (bcast (bcast f))) a b.

Definition make_confmaps (points : list (list xy))
  (image_height image_width : Z) (output_scale sigma : R)
  : result (list (list (list (list f32)))) :=
  step <- py_truediv 1 output_scale ;;
  yv <- tf_range image_height step ;;
  xv <- tf_range image_width step ;;
  let '(x, y) := split_xy points in
  let x := squeeze_last (expand_dims_1 (expand_dims_1 x)) in
  let y := squeeze_last (expand_dims_1 (expand_dims_1 y)) in
  let xv4 := [[map (fun g => [g]) xv]] in
  let yv4 := [map (fun g => [[g]]) yv] in
  let confmaps :=
    map4 fexp
      (map4 (fun v => fdiv v (Fin (2 * sigma ^ 2)))
         (map4 fneg
            (bcast4 fadd
               (map4 fsquare (bcast4 fsub xv4 x))
               (map4 fsquare (bcast4 fsub yv4 y))))) in
  Ok (map4 nan_to_zero confmaps).

(** ** make_pafs *)

(** [tf.gather(points, edges, axis=1)]: the source and destination landmark
    of every edge, for every instance. *)
Definition gather_edges (points : list (list xy)) (edges : list (nat * nat))
  : result (list (list (xy * xy))) :=
  mapM (fun inst =>
          mapM (fun e =>
                  src <- index inst (fst e) ;;
                  dst <- index inst (snd e) ;;
                  Ok (src, dst))
            edges)
    points.

(** [tf.linalg.norm(d, axis=-1, keepdims=True)]. *)
Definition norm (d : xy) : f32 :=
  fsqrt (fadd (fmul (fst d) (fst d)) (fmul (snd d) (snd d))).

(** A trailing axis of length 1 against a trailing [xy] axis. *)
Definition xy_div (d : xy) (l : f32) : xy := (fdiv (fst d) l, fdiv (snd d) l).
Definition xy_scale (m : f32) (u : xy) : xy := (fmul m (fst u), fmul m (snd u)).

(** [tf.reduce_sum(u * g, axis=-1, keepdims=True)]. *)
Definition dot (u g : xy) : f32 :=
  fadd (fmul (fst u) (fst g)) (fmul (snd u) (snd g)).

(** [tf.broadcast_to(t, shape)] for a rank-4 tensor. *)
Definition broadcast_to (t : list (list (list (list f32))))
  (shape : nat * nat * nat * nat) : result (list (list (list (list f32)))) :=
  let '(n1, n2, n3, n4) := shape in
  t1 <- broadcast_axis n1 t ;;
  mapM (fun a =>
          t2 <- broadcast_axis n2 a ;;
          mapM (fun b =>
                  t3 <- broadcast_axis n3 b ;;
                  mapM (broadcast_axis n4) t3)
            t2)
    t1.

(** [tf.stack([a, b], axis=-1)] of two tensors of one shape. *)
Definition stack_last (a b : list (list (list (list f32))))
  : list (list (list (list xy))) :=
  zip_with (zip_with (zip_with (zip_with pair))) a b.

(** [tf.zeros] of shape (w, h, e, 2). *)
Definition zeros (w h e : nat) : list (list (list xy)) :=
  repeat (repeat (repeat (Fin 0, Fin 0) e) h) w.

Definition add3 (a b : list (list (list xy))) : list (list (list xy)) :=
  zip_with (zip_with (zip_with xy_add)) a b.

(** [tf.reduce_sum(t, axis=0)] of a tensor of shape (n, w, h, e, 2). *)
Definition reduce_sum_0 (w h e : nat) (t : list (list (list (list xy))))
  : list (list (list xy)) :=
  fold_left add3 t (zeros w h e).

(** The per-instance fields, of shape (n, grid_w, grid_h, n_edges, 2), after
    the NaN pass and before the reduction over instances.  [xv] varies along
    axis 1 and [yv] along axis 2. *)
Definition instance_pafs (edge_points : list (list (xy * xy)))
  (xv yv : list f32) (distance_threshold : R)
  : result (list (list (list (list xy)))) :=
  let delta_points :=
    bcast (bcast xy_sub)
      (map (map snd) edge_points) (map (map fst) edge_points) in
  let edge_lengths := map (map norm) delta_points in
  let unit_vectors := bcast (bcast xy_div) delta_points edge_lengths in
  let perpendicular_unit_vectors :=
    map (map (fun u => (fneg (snd u), fst u))) unit_vectors in
  let yv4 := [[map (fun g => [g]) yv]] in
  let xv4 := [map (fun g => [[g]]) xv] in
  let grid_shape :=
    (Nat.max 1 1, Nat.max (List.length xv) 1,
     Nat.max 1 (List.length yv), Nat.max 1 1) in
  gx <- broadcast_to xv4 grid_shape ;;
  gy <- broadcast_to yv4 grid_shape ;;
  let sampling_grid := stack_last gx gy in
  let source_points :=
    expand_dims_1 (expand_dims_1 (map (map fst) edge_points)) in
  let source_relative_grid := bcast4 xy_sub sampling_grid source_points in
  let parallel_distance :=
    bcast4 dot (expand_dims_1 (expand_dims_1 unit_vectors))
      source_relative_grid in
  let perpendicular_distance :=
    map4 fabs
      (bcast4 dot (expand_dims_1 (expand_dims_1 perpendicular_unit_vectors))
         source_relative_grid) in
  let after_edge_source :=
    map4 (fun p => fge p (Fin (- distance_threshold))) parallel_distance in
  let before_edge_dest :=
    bcast4 fle parallel_distance
      (map4 (fadd (Fin distance_threshold))
         (expand_dims_1 (expand_dims_1 edge_lengths))) in
  let within_edge_width :=
    map4 (fun p => fle p (Fin distance_threshold)) perpendicular_distance in
  let paf_mask :=
    bcast4 andb (bcast4 andb after_edge_source before_edge_dest)
      within_edge_width in
  let pafs :=
    bcast4 xy_scale (map4 cast_bool paf_mask)
      (expand_dims_1 (expand_dims_1 unit_vectors)) in
  Ok (map4 (fun v => (nan_to_zero (fst v), nan_to_zero (snd v))) pafs).

Definition make_pafs (points : list (list xy)) (edges : list (nat * nat))
  (image_height image_width : Z) (output_scale distance_threshold : R)
  : result (list (list (list f32))) :=
  edge_points <- gather_edges points edges ;;
  step <- py_truediv 1 output_scale ;;
  yv <- tf_range image_height step ;;
  xv <- tf_range image_width step ;;
  pafs <- instance_pafs edge_points xv yv distance_threshold ;;
  let pafs :=
    reduce_sum_0 (List.length xv) (List.length yv) (List.length edges) pafs in
  Ok (map (map (flat_map (fun v => [fst v; snd v]))) pafs).

(** ** Reading a tensor *)

Definition obind {A B : Type} (o : option A) (k : A -> option B) : option B :=
  match o with
  | Some a => k a
  | None => None
  end.

(** [t[a, b, c]] and [t[i, a, b, c]]. *)
Definition entry3 {A : Type} (t : list (list (list A))) (a b c : nat)
  : option A :=
  obind (nth_error t a) (fun t1 =>
  obind (nth_error t1 b) (fun t2 => nth_error t2 c)).

Definition entry4 {A : Type} (t : list (list (list (list A))))
  (i a b c : nat) : option A :=
  obind (nth_error t i) (fun t0 => entry3 t0 a b c).

(** Every edge names two landmarks that every instance has. *)
Definition edges_in_range (points : list (list xy)) (edges : list (nat * nat))
  : Prop :=
  Forall (fun inst =>
            Forall (fun e =>
                      (fst e < List.length inst)%nat /\
                      (snd e < List.length inst)%nat)
              edges)
    points.

(** ** Pointwise form of the tensor pipelines *)

(** The value of one confidence-map element, as the chain of tensor
    operations computes it. *)
Definition confmap_value (sigma : R) (gx gy : f32) (p : xy) : f32 :=
  nan_to_zero
    (fexp
       (fdiv
          (fneg (fadd (fsquare (fsub gx (fst p))) (fsquare (fsub gy (snd p)))))
          (Fin (2 * sigma ^ 2)))).

(** The vector one instance contributes to one edge at one grid point. *)
Definition paf_value (distance_threshold : R) (gx gy : f32) (e : xy * xy)
  : xy :=
  let delta := xy_sub (snd e) (fst e) in
  let len := norm delta in
  let u := xy_div delta len in
  let rel := xy_sub (gx, gy) (fst e) in
  let par := dot u rel in
  let perp := fabs (dot (fneg (snd u), fst u) rel) in
  let mask :=
    (fge par (Fin (- distance_threshold))
     && fle par (fadd (Fin distance_threshold) len))
    && fle perp (Fin distance_threshold) in
  let v := xy_scale (cast_bool mask) u in
  (nan_to_zero (fst v), nan_to_zero (snd v)).

(** A landmark with two finite coordinates; an instance with at least one
    landmark, all of them such. *)
Definition finite_pt (p : xy) : Prop :=
  is_finite (fst p) = true /\ is_finite (snd p) = true.

Definition visible (inst : list xy) : Prop :=
  inst <> [] /\ Forall finite_pt inst.

(** The middle of the range of a list of coordinates, [0.5 * (max + min)]. *)
Definition bbox_mid (l : list f32) : f32 :=
  fmul (Fin 0.5)
    (fadd (reduce_segment fmax (Fin (- f32_highest)) l)
       (reduce_segment fmin (Fin f32_highest) l)).

(** The ragged centroid of one instance, before [to_tensor]: one value per
    coordinate position that some landmark of the instance fills. *)
Definition centroid_row (inst : list xy) : list f32 :=
  let rows := map (fun p => filter is_finite [fst p; snd p]) inst in
  map (fun j => bbox_mid (column rows j)) (seq 0 (row_width rows)).

(** A coordinate moved by a finite offset. *)
Definition shift (o : R) (v : f32) : f32 := fsub v (Fin o).


(** Every element of a field is a finite number. *)
Definition all_finite (t : list (list (list f32))) : Prop :=
  Forall (Forall (Forall (fun v => is_finite v = true))) t.

(** A unit-vector component is a number or NaN, never an infinity. *)
Definition no_inf (a : f32) : Prop := a <> PInf /\ a <> NInf.

(** The two ends of an edge in one instance. *)
Definition ends (inst : list xy) (e : nat * nat) : xy * xy :=
  (nth (fst e) inst (NaN, NaN), nth (snd e) inst (NaN, NaN)).

(** The sum of the contributions of a list of instances. *)
Definition xy_sum (l : list xy) : xy := fold_left xy_add l (Fin 0, Fin 0).

(** The field at one grid point and one edge: the instances' vectors, summed. *)
Definition paf_sum (points : list (list xy)) (t : R) (gx gy : f32)
  (e : nat * nat) : xy :=
  xy_sum (map (fun inst => paf_value t gx gy (ends inst e)) points).

(** ** Inputs on which float32 computes exactly *)

(** An output scale 2^k with k between -10 and 10.  For such a scale the step
    1/scale, the grid points and the quotient from which [tf.range] takes
    its size are computed without rounding in float32, so that the exact
    arithmetic of this development and the float32 arithmetic of the code
    agree on them. *)
Definition pow2_scale (s : R) : Prop :=
  exists k : Z, (-10 <= k <= 10)%Z /\ s = powerRZ 2 k.


(** A coordinate that is missing or lies within [-B, B]. *)
Definition within (B : R) (v : f32) : Prop :=
  match v with
  | Fin x => Rabs x <= B
  | _ => True
  end.

(** ** Sample inputs *)

(** One instance with a landmark at (5, 5) and a missing landmark. *)
Definition one_landmark : list (list xy) := [[(Fin 5, Fin 5); (NaN, NaN)]].

(** One instance with a horizontal edge from (10, 10) to (20, 10). *)
Definition horizontal_edge : list (list xy) := [[(Fin 10, Fin 10); (Fin 20, Fin 10)]].

(** An instance whose two landmarks coincide. *)
Definition collapsed_edge : list (list xy) := [[(Fin 4, Fin 4); (Fin 4, Fin 4)]].

(** An instance without visible landmarks next to a visible one. *)
Definition hidden_instance : list (list xy) :=
  [[(NaN, NaN); (NaN, NaN)]; [(Fin 1, Fin 2); (Fin 3, Fin 6)]].

(** ** sleap.util *)

(** The annotation of an attrs field: one of the four types the function
    knows, no annotation, or something else. *)
Inductive field_type : Type :=
| TyStr | TyInt | TyFloat | TyBool | TyNone | TyOther.

(** The second component of an entry of the dtype list:
    [h5.special_dtype(vlen=str)] or the Python type itself. *)
Inductive np_type : Type :=
| VlenStr
| PyType (t : field_type).

(** The loop of [attr_to_dtype] over [attr.fields(cls)], each field given by
    its name and its annotation; [dtype_list] is the list built so far.
    [np.dtype] of a list of (name, type) pairs is the structured type with
    these fields, represented by the list. *)
Fixpoint attr_to_dtype_loop (fields : list (string * field_type))
  (dtype_list : list (string * np_type)) : result (list (string * np_type)) :=
  match fields with
  | [] => Ok dtype_list
  | (name, ty) :: rest =>
      match ty with
      | TyStr => attr_to_dtype_loop rest (dtype_list ++ [(name, VlenStr)])
      | TyNone => Raise TypeError
      | TyInt | TyFloat | TyBool =>
          attr_to_dtype_loop rest (dtype_list ++ [(name, PyType ty)])
      | TyOther => Raise TypeError
      end
  end.

Definition attr_to_dtype (fields : list (string * field_type))
  : result (list (string * np_type)) :=
  attr_to_dtype_loop fields [].

(** What a call of the [open] callable can do: return a value or raise. *)
Inductive io_exn : Type :=
| FileNotFoundError
| OtherError (name : string).

Inductive outcome (A : Type) : Type :=
| Returns (a : A)
| Raises (e : io_exn).

Arguments Returns {A} a.
Arguments Raises {A} e.

(** [try_open_file(open, *args, **kwargs)].  The callable acts on the state
    [W] of the file system; [None] is Python's None. *)
Definition try_open_file {W Args A : Type}
  (open : Args -> W -> outcome A * W) (args : Args) (w : W)
  : outcome (option A) * W :=
  match open args w with
  | (Returns a, w1) => (Returns (Some a), w1)
  | (Raises FileNotFoundError, w1) =>
      match open args w1 with
      | (Returns a, w2) => (Returns (Some a), w2)
      | (Raises FileNotFoundError, w2) => (Returns None, w2)
      | (Raises e, w2) => (Raises e, w2)
      end
  | (Raises e, w1) => (Raises e, w1)
  end.

(** A callable that records the arguments of each call in the state, in the
    order of the calls. *)
Definition logged {Args A : Type} (f : Args -> outcome A)
  : Args -> list Args -> outcome A * list Args :=
  fun args log => (f args, log ++ [args]).

(** The annotations [attr_to_dtype] accepts, and the entry it makes. *)
Definition supported (f : string * field_type) : Prop :=
  match snd f with
  | TyStr | TyInt | TyFloat | TyBool => True
  | TyNone | TyOther => False
  end.

Definition dtype_entry (f : string * field_type) : string * np_type :=
  match snd f with
  | TyStr => (fst f, VlenStr)
  | ty => (fst f, PyType ty)
  end.

(** ** Further vocabulary *)

(** The least and the greatest element of a list of reals. *)
Definition is_min (m : R) (l : list R) : Prop := In m l /\ forall x, In x l -> m <= x.
Definition is_max (m : R) (l : list R) : Prop := In m l /\ forall x, In x l -> x <= m.

(** An instance given by the real coordinates of its landmarks. *)
Definition real_points (l : list (R * R)) : list xy :=
  map (fun p => (Fin (fst p), Fin (snd p))) l.

(** A landmark without any finite coordinate, and the test for a landmark
    with two. *)
Definition hidden (p : xy) : Prop :=
  is_finite (fst p) = false /\ is_finite (snd p) = false.

Definition both_finite (p : xy) : bool := is_finite (fst p) && is_finite (snd p).

(** An instance with at least one landmark that has two finite coordinates. *)
Definition seen (inst : list xy) : Prop := exists p, In p inst /\ finite_pt p.

(** A landmark whose two coordinates are NaN. *)
Definition nan_pt (p : xy) : Prop := fst p = NaN /\ snd p = NaN.

(** A box (y1, x1, y2, x2) with real corners, as a row of a boxes tensor. *)
Definition box_row (b : R * R * R * R) : list f32 :=
  let '(y1, x1, y2, x2) := b in [Fin y1; Fin x1; Fin y2; Fin x2].

(** The box of width [w] and height [h] centred on (cx, cy). *)
Definition centered_box (w h : Z) (c : R * R) : R * R * R * R :=
  (snd c - IZR h / 2, fst c - IZR w / 2, snd c + IZR h / 2, fst c + IZR w / 2).

(** A box whose corners are scaled by the image bounds. *)
Definition scaled_box (img_height img_width : Z) (b : R * R * R * R)
  : R * R * R * R :=
  let '(y1, x1, y2, x2) := b in
  (y1 / IZR (img_height - 1), x1 / IZR (img_width - 1),
   y2 / IZR (img_height - 1), x2 / IZR (img_width - 1)).

(** A box that lies on the pixel grid of an image. *)
Definition box_in_image (img_height img_width : Z) (b : R * R * R * R) : Prop :=
  let '(y1, x1, y2, x2) := b in
  (0 <= y1 <= IZR (img_height - 1) /\ 0 <= y2 <= IZR (img_height - 1)) /\
  (0 <= x1 <= IZR (img_width - 1) /\ 0 <= x2 <= IZR (img_width - 1)).

Definition box_in_unit (b : R * R * R * R) : Prop :=
  let '(y1, x1, y2, x2) := b in
  (0 <= y1 <= 1 /\ 0 <= y2 <= 1) /\ (0 <= x1 <= 1 /\ 0 <= x2 <= 1).

(** A value of a map: a number between 0 and 1. *)
Definition unit_value (v : f32) : Prop := exists x, v = Fin x /\ 0 <= x <= 1.

(** An edge seen in one instance with a NaN coordinate at one of its ends. *)
Definition nan_end (e : xy * xy) : Prop :=
  (is_nan (fst (fst e)) = true \/ is_nan (snd (fst e)) = true) \/
  (is_nan (fst (snd e)) = true \/ is_nan (snd (snd e)) = true).


(** * Properties *)

(** ** Scalars *)

Lemma Rleb_true (a b : R) : Rleb a b = true <-> a <= b.
Proof. unfold Rleb. destruct (Rle_dec a b); split; intros; (easy || lra). Qed.

Lemma Rleb_false (a b : R) : Rleb a b = false <-> ~ a <= b.
Proof. unfold Rleb. destruct (Rle_dec a b); split; intros; (easy || lra). Qed.

Lemma Rsgn_0 : Rsgn 0 = Eq.
Proof.
  unfold Rsgn. destruct (total_order_T 0 0) as [[H|H]|H];
    [lra | reflexivity | lra].
Qed.

Lemma fadd_comm (a b : f32) : fadd a b = fadd b a.
Proof. destruct a, b; cbn; try reflexivity. f_equal. ring. Qed.

Lemma fadd_assoc (a b c : f32) : fadd (fadd a b) c = fadd a (fadd b c).
Proof. destruct a, b, c; cbn; try reflexivity. f_equal. ring. Qed.

Lemma fadd_0_l (a : f32) : fadd (Fin 0) a = a.
Proof. destruct a; cbn; try reflexivity. f_equal. ring. Qed.

Lemma fdiv_fin (x y : R) : y <> 0 -> fdiv (Fin x) (Fin y) = Fin (x / y).
Proof. intros H. unfold fdiv. destruct (Req_dec_T y 0); [contradiction | reflexivity]. Qed.


Lemma fsqrt_sum_sq (dx dy : R) :
  fsqrt (Fin (dx * dx + dy * dy)) = Fin (sqrt (dx * dx + dy * dy)).
Proof.
  unfold fsqrt. destruct (Rlt_dec (dx * dx + dy * dy) 0); [nra | reflexivity].
Qed.

Lemma fmin_fin (a x : R) :
  fmin (Fin a) (Fin x) = if Rleb a x then Fin a else Fin x.
Proof. reflexivity. Qed.

Lemma fmax_fin (a x : R) :
  fmax (Fin a) (Fin x) = if Rleb a x then Fin x else Fin a.
Proof. reflexivity. Qed.

Lemma shift_fin (o x : R) : shift o (Fin x) = Fin (x + - o).
Proof. reflexivity. Qed.

Lemma Rleb_shift (a b o : R) : Rleb (a + - o) (b + - o) = Rleb a b.
Proof.
  unfold Rleb. destruct (Rle_dec (a + - o) (b + - o)), (Rle_dec a b);
    (reflexivity || lra).
Qed.

Lemma finite_is_fin (v : f32) : is_finite v = true -> exists r, v = Fin r.
Proof. destruct v; try discriminate. intros _. now eexists. Qed.

Lemma pow2_scale_pos (s : R) : pow2_scale s -> 0 < s.
Proof. intros [k [_ ->]]. apply powerRZ_lt. lra. Qed.

Lemma pow2_scale_1 : pow2_scale 1.
Proof. exists 0%Z. split; [lia | reflexivity]. Qed.

Lemma pow2_scale_half : pow2_scale (1 / 2).
Proof. exists (-1)%Z. split; [lia|]. simpl. lra. Qed.


Lemma Rabs_bounds (x B : R) : Rabs x <= B -> - B <= x <= B.
Proof.
  intros H. pose proof (Rle_abs x) as H1. pose proof (Rle_abs (- x)) as H2.
  rewrite Rabs_Ropp in H2. lra.
Qed.

(** ** Lists and results *)

Lemma zip_with_map {A B C D : Type} (f : B -> C -> D) (g : A -> B)
  (h : A -> C) (l : list A) :
  zip_with f (map g l) (map h l) = map (fun x => f (g x) (h x)) l.
Proof. induction l as [|x l IH]; simpl; [reflexivity | now rewrite IH]. Qed.

Lemma repeat_as_map {A B : Type} (c : B) (l : list A) :
  repeat c (List.length l) = map (fun _ => c) l.
Proof. induction l as [|x l IH]; simpl; [reflexivity | now rewrite IH]. Qed.

Lemma nth_of_nth_error {A : Type} (l : list A) (i : nat) (d v : A) :
  nth_error l i = Some v -> nth i l d = v.
Proof. intros H. now apply nth_error_nth. Qed.



Lemma mapM_ok {A B : Type} (f : A -> result B) (g : A -> B) (l : list A) :
  (forall x, In x l -> f x = Ok (g x)) -> mapM f l = Ok (map g l).
Proof.
  induction l as [|x l IH]; intros H; [reflexivity|].
  cbn [mapM map]. rewrite (H x (or_introl eq_refl)). cbn [bind].
  rewrite IH by (intros y Hy; apply H; now right). reflexivity.
Qed.

Lemma index_nth {A : Type} (l : list A) (i : nat) (d : A) :
  (i < List.length l)%nat -> index l i = Ok (nth i l d).
Proof.
  intros H. unfold index. now rewrite (nth_error_nth' l d H).
Qed.

Lemma row_width_le {A : Type} (rows : list (list A)) (k : nat) :
  Forall (fun r => (List.length r <= k)%nat) rows -> (row_width rows <= k)%nat.
Proof.
  unfold row_width. induction 1 as [|r rows Hr _ IH]; cbn [map fold_right]; lia.
Qed.

Lemma row_width_ge {A : Type} (rows : list (list A)) (r : list A) :
  In r rows -> (List.length r <= row_width rows)%nat.
Proof.
  unfold row_width. induction rows as [|r' rows IH]; [contradiction|].
  intros [->|H]; cbn [map fold_right]; [lia|]. specialize (IH H). lia.
Qed.

(** ** Broadcasting *)

Lemma bcast_one_l {A B C : Type} (f : A -> B -> C) (x : A) (b : list B) :
  bcast f [x] b = map (f x) b.
Proof. reflexivity. Qed.

Lemma bcast_one_r {A B C : Type} (f : A -> B -> C) (a : list A) (y : B) :
  bcast f a [y] = map (fun x => f x y) a.
Proof. destruct a as [|x [|x' a]]; reflexivity. Qed.

Lemma bcast_map {A B C D : Type} (f : B -> C -> D) (g : A -> B)
  (h : A -> C) (l : list A) :
  bcast f (map g l) (map h l) = map (fun x => f (g x) (h x)) l.
Proof.
  destruct l as [|x [|x' l]]; try reflexivity.
  change (bcast f (map g (x :: x' :: l)) (map h (x :: x' :: l)))
    with (zip_with f (map g (x :: x' :: l)) (map h (x :: x' :: l))).
  apply zip_with_map.
Qed.

Lemma bcast_map_l {A B C : Type} (f : B -> A -> C) (g : A -> B) (l : list A) :
  bcast f (map g l) l = map (fun x => f (g x) x) l.
Proof.
  rewrite <- (map_id l) at 2. rewrite bcast_map. reflexivity.
Qed.

Lemma bcast_map_r {A B C : Type} (f : A -> B -> C) (h : A -> B) (l : list A) :
  bcast f l (map h l) = map (fun x => f x (h x)) l.
Proof.
  rewrite <- (map_id l) at 1. rewrite bcast_map. reflexivity.
Qed.

(** Normalise a broadcast of mapped lists into a plain [map]. *)
Ltac bc :=
  repeat (progress (cbn [map hd];
                    rewrite ?bcast_one_l, ?bcast_one_r, ?bcast_map, ?map_map)).

Lemma bcast_checked_one_r {A B C : Type} (f : A -> B -> result C)
  (g : A -> C) (a : list A) (y : B) :
  (forall x, In x a -> f x y = Ok (g x)) ->
  bcast_checked f a [y] = Ok (map g a).
Proof.
  intros H. destruct a as [|x [|x' a]].
  - reflexivity.
  - cbn [bcast_checked mapM map]. rewrite (H x) by now left. reflexivity.
  - change (bcast_checked f (x :: x' :: a) [y])
      with (mapM (fun x => f x y) (x :: x' :: a)).
    now apply mapM_ok.
Qed.

Lemma broadcast_axis_same {A : Type} (t : list A) :
  broadcast_axis (List.length t) t = Ok t.
Proof.
  unfold broadcast_axis. destruct t as [|x [|y t]]; try reflexivity.
  now rewrite Nat.eqb_refl.
Qed.

(** ** [tf.range] *)

Lemma Zceil_spec (x : R) (z : Z) : IZR z - 1 < x <= IZR z -> Zceil x = z.
Proof.
  intros [Hlo Hhi]. unfold Zceil.
  rewrite <- (Int_part_spec (- x) (- z)%Z).
  - lia.
  - rewrite opp_IZR. lra.
Qed.

Lemma Zceil_bounds (x : R) : IZR (Zceil x) - 1 < x <= IZR (Zceil x).
Proof.
  unfold Zceil. rewrite opp_IZR.
  destruct (base_Int_part (- x)) as [H1 H2]. lra.
Qed.

Lemma Zceil_pos (x : R) : 0 < x -> (1 <= Zceil x)%Z.
Proof.
  intros Hx. unfold Zceil.
  destruct (base_Int_part (- x)) as [Hle _].
  assert (IZR (Int_part (- x)) < 0) by lra.
  apply lt_IZR in H. lia.
Qed.

Lemma tf_range_ok (limit : Z) (delta : R) :
  0 < delta -> (0 <= limit)%Z ->
  tf_range limit delta = Ok (range_values limit delta).
Proof.
  intros Hd Hl. unfold tf_range.
  destruct (Req_dec_T delta 0) as [E|_]; [lra|].
  destruct (Rlt_dec 0 delta) as [_|N]; [|contradiction].
  destruct (Z.ltb_spec limit 0); [lia | reflexivity].
Qed.

Lemma step_ok (output_scale : R) :
  0 < output_scale ->
  py_truediv 1 output_scale = Ok (1 / output_scale) /\ 0 < 1 / output_scale.
Proof.
  intros Hs. unfold py_truediv.
  destruct (Req_dec_T output_scale 0); [lra|]. split; [reflexivity|].
  apply Rdiv_lt_0_compat; lra.
Qed.

(** [tf.range] samples the dimension at every multiple of the step below the
    limit, and at no other point. *)
Lemma range_values_samples (limit : Z) (delta : R) :
  0 < delta -> (0 <= limit)%Z ->
  (forall i, (i < range_size limit delta)%nat -> INR i * delta < IZR limit) /\
  IZR limit <= INR (range_size limit delta) * delta.
Proof.
  intros Hd Hl. unfold range_size.
  assert (Hx : 0 <= IZR limit / delta).
  { apply Rmult_le_pos; [now apply (IZR_le 0) | left; now apply Rinv_0_lt_compat]. }
  rewrite (Rabs_pos_eq _ Hx).
  destruct (Zceil_bounds (IZR limit / delta)) as [Hlo Hhi].
  assert (Hc : (0 <= Zceil (IZR limit / delta))%Z).
  { apply le_IZR. destruct (Z_le_gt_dec 0 (Zceil (IZR limit / delta))) as [H|H].
    - now apply IZR_le.
    - exfalso. assert (Zceil (IZR limit / delta) <= -1)%Z by lia.
      apply IZR_le in H0. lra. }
  assert (E : IZR limit = IZR limit / delta * delta) by (field; lra).
  split.
  - intros i Hi.
    assert (Hi' : (Z.of_nat i <= Zceil (IZR limit / delta) - 1)%Z) by lia.
    apply IZR_le in Hi'. rewrite minus_IZR, <- INR_IZR_INZ in Hi'.
    rewrite E. apply Rmult_lt_compat_r; lra.
  - rewrite INR_IZR_INZ, Z2Nat.id by exact Hc.
    rewrite E at 1. apply Rmult_le_compat_r; lra.
Qed.

Lemma range_values_nth (limit : Z) (delta : R) (a : nat) :
  (a < range_size limit delta)%nat ->
  nth_error (range_values limit delta) a = Some (Fin (INR a * delta)).
Proof.
  intros Ha. unfold range_values.
  rewrite nth_error_map, nth_error_seq.
  destruct (Nat.ltb_spec a (range_size limit delta)); [reflexivity | lia].
Qed.

Lemma range_values_length (limit : Z) (delta : R) :
  List.length (range_values limit delta) = range_size limit delta.
Proof. unfold range_values. now rewrite length_map, length_seq. Qed.

Lemma range_size_scale (limit : Z) (s : R) :
  0 < s -> (0 <= limit)%Z ->
  range_size limit (1 / s) = Z.to_nat (Zceil (IZR limit * s)).
Proof.
  intros Hs Hl. unfold range_size. do 2 f_equal.
  assert (0 <= IZR limit) by (apply IZR_le in Hl; exact Hl).
  replace (IZR limit / (1 / s)) with (IZR limit * s) by (field; lra).
  apply Rabs_pos_eq. apply Rmult_le_pos; lra.
Qed.

Lemma range_size_eval (limit : Z) (s : R) (z : Z) :
  0 < s -> (0 <= limit)%Z -> IZR z - 1 < IZR limit * s <= IZR z ->
  range_size limit (1 / s) = Z.to_nat z.
Proof.
  intros Hs Hl Hz. rewrite range_size_scale by assumption.
  now rewrite (Zceil_spec _ z).
Qed.

Lemma range_size_unit (n : Z) : (0 <= n)%Z -> range_size n (1 / 1) = Z.to_nat n.
Proof. intros H. apply range_size_eval; [lra | exact H | lra]. Qed.

Lemma range_values_nonempty (limit : Z) (s : R) :
  0 < s -> (0 < limit)%Z -> range_values limit (1 / s) <> [].
Proof.
  intros Hs Hl E. apply (f_equal (@List.length f32)) in E.
  rewrite range_values_length, range_size_scale in E by (assumption || lia).
  assert (0 < IZR limit * s).
  { apply Rmult_lt_0_compat; [apply (IZR_lt 0); assumption | assumption]. }
  pose proof (Zceil_pos _ H). simpl in E. lia.
Qed.

(** ** Confidence maps *)



Section ConfidenceMaps.

(** A positive output scale and image dimensions that are not negative: the
    conditions under which the two [tf.range] calls succeed. *)
Variables (points : list (list xy)) (h w : Z) (s sigma : R).
Hypothesis Hs : 0 < s.
Hypothesis Hh : (0 <= h)%Z.
Hypothesis Hw : (0 <= w)%Z.

Lemma make_confmaps_unfold :
  make_confmaps points h w s sigma =
  Ok (map (fun inst =>
             map (fun gy =>
                    map (fun gx => map (confmap_value sigma gx gy) inst)
                      (range_values w (1 / s)))
               (range_values h (1 / s)))
        points).
Proof.
  unfold make_confmaps.
  destruct (step_ok s Hs) as [-> Hstep]. cbn [bind].
  rewrite !tf_range_ok by assumption. cbn [bind split_xy].
  f_equal. unfold map4, bcast4, squeeze_last, expand_dims_1.
  bc. apply map_ext; intros inst.
  bc. apply map_ext; intros gy.
  bc. apply map_ext; intros gx.
  bc. apply map_ext; intros p. reflexivity.
Qed.

(** Every entry of the result, read through the inputs. *)
Lemma make_confmaps_entry :
  exists cm,
    make_confmaps points h w s sigma = Ok cm /\
    forall i a b k,
      entry4 cm i a b k =
      obind (nth_error points i) (fun inst =>
      obind (nth_error (range_values h (1 / s)) a) (fun gy =>
      obind (nth_error (range_values w (1 / s)) b) (fun gx =>
      option_map (confmap_value sigma gx gy) (nth_error inst k)))).
Proof.
  eexists. split; [apply make_confmaps_unfold|].
  intros i a b k. unfold entry4, entry3.
  rewrite nth_error_map. destruct (nth_error points i) as [inst|]; [|reflexivity].
  cbn [option_map obind]. rewrite nth_error_map.
  destruct (nth_error (range_values h (1 / s)) a) as [gy|]; [|reflexivity].
  cbn [option_map obind]. rewrite nth_error_map.
  destruct (nth_error (range_values w (1 / s)) b) as [gx|]; [|reflexivity].
  cbn [option_map obind]. apply nth_error_map.
Qed.



End ConfidenceMaps.

(** ** Part affinity fields: one instance, one edge, one pixel *)


Lemma unit_vector_no_inf (d : xy) :
  no_inf (fst (xy_div d (norm d))) /\ no_inf (snd (xy_div d (norm d))).
Proof.
  destruct d as [[x| | |] [y| | |]]; unfold xy_div, norm, no_inf;
    try (cbn [fst snd fmul fadd fsqrt fdiv]; repeat split; discriminate).
  cbn [fst snd fmul fadd]. rewrite fsqrt_sum_sq. unfold fdiv.
  destruct (Req_dec_T (sqrt (x * x + y * y)) 0) as [E|N].
  - apply sqrt_eq_0 in E; [|nra].
    assert (x = 0) by nra. assert (y = 0) by nra. subst.
    rewrite Rsgn_0. cbn. repeat split; discriminate.
  - repeat split; discriminate.
Qed.

Lemma scaled_component_finite (m : bool) (u : f32) :
  no_inf u -> is_finite (nan_to_zero (fmul (cast_bool m) u)) = true.
Proof.
  intros [H1 H2]. destruct u; try contradiction; destruct m; reflexivity.
Qed.

Lemma paf_value_finite (t : R) (gx gy : f32) (e : xy * xy) :
  is_finite (fst (paf_value t gx gy e)) = true /\
  is_finite (snd (paf_value t gx gy e)) = true.
Proof.
  unfold paf_value. cbv zeta. unfold xy_scale. cbn [fst snd].
  destruct (unit_vector_no_inf (xy_sub (snd e) (fst e))) as [Hx Hy].
  split; apply scaled_component_finite; assumption.
Qed.

Lemma paf_value_degenerate (t : R) (gx gy : f32) (p : xy) :
  paf_value t gx gy (p, p) = (Fin 0, Fin 0).
Proof.
  assert (U : xy_div (xy_sub p p) (norm (xy_sub p p)) = (NaN, NaN)).
  { destruct p as [[x| | |] [y| | |]]; unfold xy_div, norm, xy_sub, fsub;
      try (cbn [fst snd fneg fmul fadd fsqrt fdiv]; reflexivity).
    cbn [fst snd fneg fmul fadd]. rewrite fsqrt_sum_sq.
    replace (x + - x) with 0 by ring. replace (y + - y) with 0 by ring.
    replace (0 * 0 + 0 * 0) with 0 by ring. rewrite sqrt_0.
    unfold fdiv. destruct (Req_dec_T 0 0) as [_|N]; [|contradiction].
    now rewrite Rsgn_0. }
  unfold paf_value. cbv zeta. cbn [fst snd]. rewrite U.
  unfold dot, xy_scale, fge. cbn [fst snd fmul fadd fle andb].
  destruct (xy_sub (gx, gy) p) as [rx ry]. cbn [fst snd fmul fadd fle].
  reflexivity.
Qed.

(** ** Part affinity fields: the sum over instances *)

Lemma xy_add_assoc (a b c : xy) : xy_add (xy_add a b) c = xy_add a (xy_add b c).
Proof. unfold xy_add. cbn [fst snd]. now rewrite !fadd_assoc. Qed.

Lemma xy_add_0_l (a : xy) : xy_add (Fin 0, Fin 0) a = a.
Proof. unfold xy_add. cbn [fst snd]. rewrite !fadd_0_l. now destruct a. Qed.

Lemma xy_sum_one (v : xy) : xy_sum [v] = v.
Proof.
  unfold xy_sum, xy_add. cbn [fold_left fst snd].
  rewrite !fadd_0_l. now destruct v.
Qed.

Lemma fold_xy_add (l : list xy) (a : xy) :
  fold_left xy_add l a = xy_add a (xy_sum l).
Proof.
  unfold xy_sum. revert a. induction l as [|v l IH]; intros a; cbn [fold_left].
  - unfold xy_add. cbn [fst snd]. rewrite !(fadd_comm _ (Fin 0)), !fadd_0_l.
    now destruct a.
  - rewrite IH. rewrite (IH (xy_add (Fin 0, Fin 0) v)).
    rewrite xy_add_0_l. apply xy_add_assoc.
Qed.

Lemma xy_sum_app (l1 l2 : list xy) :
  xy_sum (l1 ++ l2) = xy_add (xy_sum l1) (xy_sum l2).
Proof.
  unfold xy_sum at 1. rewrite fold_left_app. fold (xy_sum l1).
  apply fold_xy_add.
Qed.

Lemma paf_sum_app (p1 p2 : list (list xy)) (t : R) (gx gy : f32)
  (e : nat * nat) :
  paf_sum (p1 ++ p2) t gx gy e =
  xy_add (paf_sum p1 t gx gy e) (paf_sum p2 t gx gy e).
Proof. unfold paf_sum. rewrite map_app. apply xy_sum_app. Qed.

Lemma xy_sum_finite (l : list xy) :
  Forall (fun v => is_finite (fst v) = true /\ is_finite (snd v) = true) l ->
  is_finite (fst (xy_sum l)) = true /\ is_finite (snd (xy_sum l)) = true.
Proof.
  unfold xy_sum.
  assert (G : forall a : xy,
             is_finite (fst a) = true /\ is_finite (snd a) = true ->
             Forall (fun v => is_finite (fst v) = true /\
                              is_finite (snd v) = true) l ->
             is_finite (fst (fold_left xy_add l a)) = true /\
             is_finite (snd (fold_left xy_add l a)) = true).
  { induction l as [|v l IH]; intros a Ha Hl; [exact Ha|].
    cbn [fold_left]. inversion Hl as [|v' l' Hv Hl']; subst.
    apply IH; [|exact Hl'].
    destruct a as [[a1| | |] [a2| | |]], v as [[v1| | |] [v2| | |]];
      cbn in *; destruct Ha, Hv; try discriminate; split; reflexivity. }
  intros H. apply G; [split; reflexivity | exact H].
Qed.

Lemma paf_sum_finite (points : list (list xy)) (t : R) (gx gy : f32)
  (e : nat * nat) :
  is_finite (fst (paf_sum points t gx gy e)) = true /\
  is_finite (snd (paf_sum points t gx gy e)) = true.
Proof.
  unfold paf_sum. apply xy_sum_finite. apply Forall_forall.
  intros v Hv. apply in_map_iff in Hv as [inst [<- _]].
  apply paf_value_finite.
Qed.


(** ** Part affinity fields: the tensor pipeline *)

Lemma max_1_r (n : nat) : (0 < n)%nat -> Nat.max n 1 = n.
Proof. lia. Qed.

Lemma max_1_l (n : nat) : (0 < n)%nat -> Nat.max 1 n = n.
Proof. lia. Qed.

Lemma sampling_grid_unfold (xv yv : list f32) :
  xv <> [] -> yv <> [] ->
  (gx <- broadcast_to [map (fun g => [[g]]) xv]
           (Nat.max 1 1, Nat.max (List.length xv) 1,
            Nat.max 1 (List.length yv), Nat.max 1 1) ;;
   gy <- broadcast_to [[map (fun g => [g]) yv]]
           (Nat.max 1 1, Nat.max (List.length xv) 1,
            Nat.max 1 (List.length yv), Nat.max 1 1) ;;
   Ok (stack_last gx gy)) =
  Ok [map (fun gx => map (fun gy => [(gx, gy)]) yv) xv].
Proof.
  intros Hx Hy.
  assert (Lx : (0 < List.length xv)%nat) by (destruct xv; [contradiction | simpl; lia]).
  assert (Ly : (0 < List.length yv)%nat) by (destruct yv; [contradiction | simpl; lia]).
  rewrite (max_1_r _ Lx), (max_1_l _ Ly). cbn [Nat.max].
  unfold broadcast_to. cbn [broadcast_axis repeat bind mapM].
  rewrite <- (length_map (fun g => [[g]]) xv) at 1.
  rewrite broadcast_axis_same. cbn [bind].
  rewrite (mapM_ok _ (fun r => map (fun _ => hd [] r) yv)).
  2:{ intros r Hr. apply in_map_iff in Hr as [g [<- _]].
      cbn [broadcast_axis repeat bind mapM hd].
      rewrite repeat_as_map. cbn [bind].
      rewrite (mapM_ok _ (fun r => r)).
      - now rewrite map_id.
      - intros r Hr. apply in_map_iff in Hr as [_ [<- _]]. reflexivity. }
  cbn [bind]. rewrite repeat_as_map.
  rewrite (mapM_ok _ (fun r => r)).
  2:{ intros r Hr. apply in_map_iff in Hr as [g [<- _]].
      rewrite <- (length_map (fun g => [g]) yv) at 1.
      rewrite broadcast_axis_same. cbn [bind].
      rewrite (mapM_ok _ (fun r => r)).
      - now rewrite map_id.
      - intros r Hr. apply in_map_iff in Hr as [g' [<- _]]. reflexivity. }
  cbn [bind]. unfold stack_last. cbn [zip_with]. do 2 f_equal.
  rewrite !map_map. rewrite zip_with_map.
  apply map_ext; intros gx. cbn [hd].
  rewrite zip_with_map.
  apply map_ext; intros gy. reflexivity.
Qed.

Lemma instance_pafs_unfold (edge_points : list (list (xy * xy)))
  (xv yv : list f32) (t : R) :
  xv <> [] -> yv <> [] ->
  instance_pafs edge_points xv yv t =
  Ok (map (fun inst =>
             map (fun gx => map (fun gy => map (paf_value t gx gy) inst) yv) xv)
        edge_points).
Proof.
  intros Hx Hy. unfold instance_pafs. cbv zeta.
  pose proof (sampling_grid_unfold xv yv Hx Hy) as G.
  destruct (broadcast_to [map (fun g => [[g]]) xv] _) as [bx|e]; [|discriminate].
  cbn [bind] in G |- *.
  destruct (broadcast_to [[map (fun g => [g]) yv]] _) as [by_|e]; [|discriminate].
  cbn [bind] in G |- *. injection G as ->.
  apply f_equal. unfold map4, bcast4, expand_dims_1.
  bc. apply map_ext; intros inst.
  bc. apply map_ext; intros gx.
  bc. apply map_ext; intros gy.
  bc. apply map_ext; intros e. reflexivity.
Qed.

Lemma gather_edges_unfold (points : list (list xy)) (edges : list (nat * nat)) :
  edges_in_range points edges ->
  gather_edges points edges = Ok (map (fun inst => map (ends inst) edges) points).
Proof.
  intros H. unfold gather_edges. apply mapM_ok. intros inst Hin.
  apply mapM_ok. intros e He.
  unfold edges_in_range in H. rewrite Forall_forall in H.
  specialize (H inst Hin). rewrite Forall_forall in H.
  destruct (H e He) as [Hs Hd]. cbv beta.
  rewrite (index_nth inst _ (NaN, NaN) Hs), (index_nth inst _ (NaN, NaN) Hd).
  reflexivity.
Qed.

Lemma add3_map {A B C : Type} (f g : A -> B -> C -> xy)
  (la : list A) (lb : list B) (lc : list C) :
  add3 (map (fun a => map (fun b => map (f a b) lc) lb) la)
       (map (fun a => map (fun b => map (g a b) lc) lb) la) =
  map (fun a => map (fun b => map (fun c => xy_add (f a b c) (g a b c)) lc) lb)
    la.
Proof.
  unfold add3. rewrite zip_with_map. apply map_ext; intros a.
  rewrite zip_with_map. apply map_ext; intros b. apply zip_with_map.
Qed.

Lemma reduce_sum_0_acc {I : Type} (F : I -> f32 -> f32 -> nat * nat -> xy)
  (xv yv : list f32) (edges : list (nat * nat)) (insts : list I) :
  forall acc : f32 -> f32 -> nat * nat -> xy,
  fold_left add3
    (map (fun i => map (fun gx => map (fun gy => map (F i gx gy) edges) yv) xv)
       insts)
    (map (fun gx => map (fun gy => map (acc gx gy) edges) yv) xv) =
  map (fun gx =>
         map (fun gy =>
                map (fun e =>
                       fold_left xy_add (map (fun i => F i gx gy e) insts)
                         (acc gx gy e))
                  edges)
           yv)
    xv.
Proof.
  induction insts as [|i insts IH]; intros acc; [reflexivity|].
  cbn [map fold_left]. rewrite add3_map.
  apply (IH (fun gx gy e => xy_add (acc gx gy e) (F i gx gy e))).
Qed.

Lemma zeros_as_map (xv yv : list f32) (edges : list (nat * nat)) :
  zeros (List.length xv) (List.length yv) (List.length edges) =
  map (fun _ => map (fun _ => map (fun _ => (Fin 0, Fin 0)) edges) yv) xv.
Proof. unfold zeros. now rewrite !repeat_as_map. Qed.

Lemma reduce_sum_0_unfold {I : Type} (F : I -> f32 -> f32 -> nat * nat -> xy)
  (xv yv : list f32) (edges : list (nat * nat)) (insts : list I) :
  reduce_sum_0 (List.length xv) (List.length yv) (List.length edges)
    (map (fun i => map (fun gx => map (fun gy => map (F i gx gy) edges) yv) xv)
       insts) =
  map (fun gx =>
         map (fun gy =>
                map (fun e => xy_sum (map (fun i => F i gx gy e) insts)) edges)
           yv)
    xv.
Proof.
  unfold reduce_sum_0. rewrite zeros_as_map.
  apply (reduce_sum_0_acc F xv yv edges insts (fun _ _ _ => (Fin 0, Fin 0))).
Qed.

Section PartAffinityFields.

(** A positive output scale and a nonempty image: the conditions under which
    the sampling grid can be built. *)
Variables (edges : list (nat * nat)) (h w : Z) (s t : R).
Hypothesis Hs : 0 < s.
Hypothesis Hh : (0 < h)%Z.
Hypothesis Hw : (0 < w)%Z.

Lemma make_pafs_unfold (points : list (list xy)) :
  edges_in_range points edges ->
  make_pafs points edges h w s t =
  Ok (map (fun gx =>
             map (fun gy =>
                    flat_map (fun e =>
                                [fst (paf_sum points t gx gy e);
                                 snd (paf_sum points t gx gy e)])
                      edges)
               (range_values h (1 / s)))
        (range_values w (1 / s))).
Proof.
  intros He. unfold make_pafs.
  rewrite (gather_edges_unfold _ _ He). cbn [bind].
  destruct (step_ok s Hs) as [-> Hstep]. cbn [bind].
  rewrite !tf_range_ok by (assumption || lia). cbn [bind].
  rewrite instance_pafs_unfold by (apply range_values_nonempty; assumption).
  cbn [bind]. apply f_equal.
  rewrite (map_map (fun inst => map (ends inst) edges)).
  erewrite (map_ext (fun inst : list xy => _)).
  2:{ intros inst. apply map_ext. intros gx. apply map_ext. intros gy.
      apply map_map. }
  rewrite (reduce_sum_0_unfold
             (fun inst gx gy e => paf_value t gx gy (ends inst e))).
  rewrite map_map. apply map_ext; intros gx.
  rewrite map_map. apply map_ext; intros gy.
  rewrite flat_map_concat_map, map_map. now rewrite <- flat_map_concat_map.
Qed.


(** The shape of the field: the first spatial axis follows [xv] (the image
    width), the second [yv] (the image height). *)
Lemma make_pafs_shape (points : list (list xy)) :
  edges_in_range points edges ->
  exists pafs,
    make_pafs points edges h w s t = Ok pafs /\
    List.length pafs = Z.to_nat (Zceil (IZR w * s)) /\
    Forall (fun col =>
              List.length col = Z.to_nat (Zceil (IZR h * s)) /\
              Forall (fun px => List.length px = (2 * List.length edges)%nat)
                col)
      pafs.
Proof.
  intros He. eexists.
  split; [apply make_pafs_unfold; assumption|]. split.
  - rewrite length_map, range_values_length. apply range_size_scale; [assumption | lia].
  - apply Forall_forall. intros col Hcol.
    apply in_map_iff in Hcol as [gx [<- _]]. split.
    + rewrite length_map, range_values_length.
      apply range_size_scale; [assumption | lia].
    + apply Forall_forall. intros px Hpx.
      apply in_map_iff in Hpx as [gy [<- _]].
      clear. induction edges as [|e l IH]; [reflexivity|].
      cbn [flat_map app List.length]. rewrite IH. lia.
Qed.



(** C7: [make_pafs] returns a field with no NaN and no infinity in it, and
    an instance contributes the zero vector, at every pixel, to an edge whose
    source and destination landmarks coincide: the 0/0 of the unit-vector
    computation is turned into 0 by the NaN pass.  (Positive output scale and
    image dimensions; the edges index landmarks that the instances have.) *)
Theorem make_pafs_degenerate_edge (points : list (list xy)) :
  edges_in_range points edges ->
  exists edge_points fields pafs,
    gather_edges points edges = Ok edge_points /\
    instance_pafs edge_points (range_values w (1 / s))
      (range_values h (1 / s)) t = Ok fields /\
    make_pafs points edges h w s t = Ok pafs /\
    all_finite pafs /\
    (forall i e inst si di p,
        nth_error points i = Some inst ->
        nth_error edges e = Some (si, di) ->
        nth_error inst si = Some p ->
        nth_error inst di = Some p ->
        forall a b,
          (a < range_size w (1 / s))%nat -> (b < range_size h (1 / s))%nat ->
          entry4 fields i a b e = Some (Fin 0, Fin 0)).
Proof.
  intros He. do 3 eexists.
  split; [apply gather_edges_unfold; exact He|].
  split; [apply instance_pafs_unfold; apply range_values_nonempty; assumption|].
  split; [apply make_pafs_unfold; assumption|].
  split.
  - unfold all_finite. apply Forall_forall. intros col Hcol.
    apply in_map_iff in Hcol as [gx [<- _]].
    apply Forall_forall. intros px Hpx.
    apply in_map_iff in Hpx as [gy [<- _]].
    apply Forall_forall. intros v Hv.
    apply in_flat_map in Hv as [e [_ Hv]].
    destruct (paf_sum_finite points t gx gy e) as [F1 F2].
    destruct Hv as [<-|[<-|[]]]; assumption.
  - intros i e inst si di p Hi Hedge Hsrc Hdst a b Ha Hb.
    unfold entry4, entry3. rewrite nth_error_map, nth_error_map, Hi.
    cbn [option_map obind].
    rewrite nth_error_map, (range_values_nth _ _ _ Ha).
    cbn [option_map obind].
    rewrite nth_error_map, (range_values_nth _ _ _ Hb).
    cbn [option_map obind]. rewrite nth_error_map, nth_error_map, Hedge.
    cbn [option_map]. unfold ends. cbn [fst snd].
    rewrite (nth_of_nth_error _ _ _ _ Hsrc), (nth_of_nth_error _ _ _ _ Hdst).
    now rewrite paf_value_degenerate.
Qed.

End PartAffinityFields.

(** ** Output dimensions *)

(** C3, amended: for an output scale 2^k (k from -10 to 10) and image
    dimensions below 2^24 the spatial dimensions of [make_confmaps] are
    ceil(img_h * scale) by ceil(img_w * scale), the number of samples of each
    dimension at step 1/scale from 0 up to but excluding the dimension; the
    two spatial dimensions of [make_pafs] are the same two numbers (for a
    nonempty image).  For these scales and dimensions the step, the cast of
    the dimension and their quotient are exact in float32, so that the
    sample count of [tf.range] is the exact one; for other scales the count
    comes from the rounded quotient and is not stated here. *)
Theorem sampling_grid_dims (points : list (list xy))
  (edges : list (nat * nat)) (h w : Z) (s sigma t : R) :
  pow2_scale s -> (h < 2 ^ 24)%Z -> (w < 2 ^ 24)%Z ->
  let dh := Z.to_nat (Zceil (IZR h * s)) in
  let dw := Z.to_nat (Zceil (IZR w * s)) in
  ((0 <= h)%Z -> (0 <= w)%Z ->
   exists cm,
     make_confmaps points h w s sigma = Ok cm /\
     Forall (fun m =>
               List.length m = dh /\ Forall (fun row => List.length row = dw) m)
       cm) /\
  ((0 < h)%Z -> (0 < w)%Z -> edges_in_range points edges ->
   exists pafs,
     make_pafs points edges h w s t = Ok pafs /\
     ((List.length pafs = dh /\ Forall (fun r => List.length r = dw) pafs) \/
      (List.length pafs = dw /\ Forall (fun c => List.length c = dh) pafs))).
Proof.
  intros Hp2 _ _ dh dw. pose proof (pow2_scale_pos s Hp2) as Hs. split.
  - intros Hh Hw. eexists.
    split; [apply make_confmaps_unfold; assumption|].
    apply Forall_forall. intros m Hm.
    apply in_map_iff in Hm as [inst [<- _]]. split.
    + rewrite length_map, range_values_length. now apply range_size_scale.
    + apply Forall_forall. intros row Hrow.
      apply in_map_iff in Hrow as [gy [<- _]].
      rewrite length_map, range_values_length. now apply range_size_scale.
  - intros Hh Hw He.
    destruct (make_pafs_shape edges h w s t Hs Hh Hw points He)
      as [pafs [Hp [L F]]].
    exists pafs. split; [exact Hp|]. right. split; [exact L|].
    eapply Forall_impl; [|exact F]. intros c [Hc _]. exact Hc.
Qed.

(** ** Centroids *)

Lemma mask_length (p : xy) :
  (List.length (filter is_finite [fst p; snd p]) <= 2)%nat.
Proof. cbn [filter]. destruct (is_finite (fst p)), (is_finite (snd p)); simpl; lia. Qed.

Lemma get_bbox_centroid_unfold (points : list (list xy)) :
  get_bbox_centroid points = to_tensor (map centroid_row points).
Proof.
  unfold get_bbox_centroid. cbv zeta. f_equal.
  unfold ragged_reduce_axis1, mask_finite. rewrite zip_with_map, map_map.
  apply map_ext; intros inst. unfold centroid_row. cbv zeta.
  now rewrite zip_with_map.
Qed.

Lemma centroid_row_length (inst : list xy) :
  (List.length (centroid_row inst) <= 2)%nat.
Proof.
  unfold centroid_row. cbv zeta.
  rewrite length_map, length_seq. apply row_width_le.
  apply Forall_forall. intros r Hr. apply in_map_iff in Hr as [p [<- _]].
  apply mask_length.
Qed.

Lemma mask_finite_pt (p : xy) :
  finite_pt p -> filter is_finite [fst p; snd p] = [fst p; snd p].
Proof. intros [H1 H2]. cbn [filter]. now rewrite H1, H2. Qed.

Lemma column_pairs (inst : list xy) :
  column (map (fun p => [fst p; snd p]) inst) 0 = map fst inst /\
  column (map (fun p => [fst p; snd p]) inst) 1 = map snd inst.
Proof.
  induction inst as [|p inst [IH0 IH1]]; [split; reflexivity|].
  unfold column in *. cbn [map flat_map nth_error app].
  split; f_equal; assumption.
Qed.

Lemma row_width_pairs (inst : list xy) :
  inst <> [] -> row_width (map (fun p => [fst p; snd p]) inst) = 2%nat.
Proof.
  intros H. apply Nat.le_antisymm.
  - apply row_width_le. apply Forall_forall. intros r Hr.
    apply in_map_iff in Hr as [p [<- _]]. simpl. lia.
  - destruct inst as [|p inst]; [contradiction|].
    apply (row_width_ge _ [fst p; snd p]). now left.
Qed.

Lemma centroid_row_visible (inst : list xy) :
  visible inst ->
  centroid_row inst = [bbox_mid (map fst inst); bbox_mid (map snd inst)].
Proof.
  intros [Hne Hfin]. unfold centroid_row. cbv zeta.
  assert (E : map (fun p => filter is_finite [fst p; snd p]) inst =
              map (fun p => [fst p; snd p]) inst).
  { apply map_ext_in. intros p Hp. apply mask_finite_pt.
    rewrite Forall_forall in Hfin. now apply Hfin. }
  rewrite E, (row_width_pairs _ Hne). cbn [seq map].
  destruct (column_pairs inst) as [-> ->]. reflexivity.
Qed.

Lemma centroid_row_all_nan (inst : list xy) :
  Forall (fun p => fst p = NaN /\ snd p = NaN) inst -> centroid_row inst = [].
Proof.
  intros Hnan. unfold centroid_row. cbv zeta.
  assert (E : map (fun p => filter is_finite [fst p; snd p]) inst =
              map (fun _ => []) inst).
  { apply map_ext_in. intros p Hp. rewrite Forall_forall in Hnan.
    destruct (Hnan p Hp) as [-> ->]. reflexivity. }
  rewrite E.
  assert (W : row_width (map (fun _ : xy => @nil f32) inst) = 0%nat).
  { apply Nat.le_antisymm; [|lia]. apply row_width_le.
    apply Forall_forall. intros r Hr. apply in_map_iff in Hr as [_ [<- _]].
    simpl. lia. }
  now rewrite W.
Qed.

(** On instances whose landmarks are all visible the centroid is the middle
    of the bounding box, per coordinate. *)
Lemma get_bbox_centroid_visible (points : list (list xy)) :
  Forall visible points ->
  get_bbox_centroid points =
  map (fun inst => [bbox_mid (map fst inst); bbox_mid (map snd inst)]) points.
Proof.
  intros H. rewrite get_bbox_centroid_unfold.
  rewrite (map_ext_in centroid_row
             (fun inst => [bbox_mid (map fst inst); bbox_mid (map snd inst)])).
  2:{ intros inst Hin. apply centroid_row_visible.
      rewrite Forall_forall in H. now apply H. }
  unfold to_tensor.
  erewrite map_ext_in; [apply map_id|].
  intros r Hr.
  assert (W : (row_width
                 (map (fun inst => [bbox_mid (map fst inst);
                                    bbox_mid (map snd inst)]) points) <= 2)%nat).
  { apply row_width_le. apply Forall_forall. intros r' Hr'.
    apply in_map_iff in Hr' as [inst [<- _]]. simpl. lia. }
  apply in_map_iff in Hr as [inst [<- _]].
  cbn [List.length]. apply Nat.sub_0_le in W. rewrite W. apply app_nil_r.
Qed.

(** C2, amended: for an instance whose landmarks are all NaN,
    [get_bbox_centroid] returns (it cannot raise) and the centroid row of that
    instance holds zeros only, the padding of [to_tensor]: it is (0, 0) as
    soon as some instance of the tensor has a landmark with two finite
    coordinates. *)
Theorem get_bbox_centroid_all_nan (points : list (list xy)) (i : nat)
  (inst : list xy) :
  nth_error points i = Some inst ->
  Forall (fun p => fst p = NaN /\ snd p = NaN) inst ->
  exists n,
    nth_error (get_bbox_centroid points) i = Some (repeat (Fin 0) n) /\
    ((exists inst' p, In inst' points /\ In p inst' /\ finite_pt p) ->
     n = 2%nat).
Proof.
  intros Hi Hnan. rewrite get_bbox_centroid_unfold. unfold to_tensor.
  exists (row_width (map centroid_row points)). split.
  - rewrite !nth_error_map, Hi. cbn [option_map].
    rewrite (centroid_row_all_nan _ Hnan). cbn [app List.length].
    now rewrite Nat.sub_0_r.
  - intros [inst' [p [Hin [Hp Hfin]]]].
    apply Nat.le_antisymm.
    + apply row_width_le. apply Forall_forall. intros r Hr.
      apply in_map_iff in Hr as [inst0 [<- _]]. apply centroid_row_length.
    + etransitivity;
        [|apply (row_width_ge _ (centroid_row inst')); now apply in_map].
      unfold centroid_row. cbv zeta. rewrite length_map, length_seq.
      apply (row_width_ge _ [fst p; snd p]).
      apply in_map_iff. exists p. split; [|exact Hp].
      now apply mask_finite_pt.
Qed.

(** ** Box-local coordinates *)

Lemma fold_fmin_shift (o : R) (l : list f32) :
  Forall (fun v => is_finite v = true) l ->
  forall a : R,
  exists m : R,
    fold_left fmin l (Fin a) = Fin m /\
    fold_left fmin (map (shift o) l) (Fin (a + - o)) = Fin (m + - o).
Proof.
  induction 1 as [|v l Hv _ IH]; intros a.
  - exists a. split; reflexivity.
  - destruct v as [x| | |]; try discriminate.
    cbn [map fold_left]. rewrite shift_fin, !fmin_fin, Rleb_shift.
    destruct (Rleb a x); apply IH.
Qed.

Lemma fold_fmax_shift (o : R) (l : list f32) :
  Forall (fun v => is_finite v = true) l ->
  forall a : R,
  exists m : R,
    fold_left fmax l (Fin a) = Fin m /\
    fold_left fmax (map (shift o) l) (Fin (a + - o)) = Fin (m + - o).
Proof.
  induction 1 as [|v l Hv _ IH]; intros a.
  - exists a. split; reflexivity.
  - destruct v as [x| | |]; try discriminate.
    cbn [map fold_left]. rewrite shift_fin, !fmax_fin, Rleb_shift.
    destruct (Rleb a x); apply IH.
Qed.

(** The middle of a range follows a shift of the coordinates. *)
Lemma bbox_mid_shift (o : R) (l : list f32) :
  l <> [] -> Forall (fun v => is_finite v = true) l ->
  exists c : R,
    bbox_mid l = Fin c /\ bbox_mid (map (shift o) l) = Fin (c - o).
Proof.
  intros Hne Hfin. destruct l as [|v l]; [contradiction|].
  inversion Hfin as [|v' l' Hv Hl]; subst.
  destruct v as [x| | |]; try discriminate.
  destruct (fold_fmin_shift o l Hl x) as [mn [E1 E2]].
  destruct (fold_fmax_shift o l Hl x) as [mx [E3 E4]].
  exists (0.5 * (mx + mn)). unfold bbox_mid.
  cbn [map reduce_segment]. rewrite shift_fin.
  rewrite E1, E2, E3, E4. cbn [fadd fmul]. split; [reflexivity|].
  f_equal. lra.
Qed.

Lemma get_centered_bboxes_unfold {I : Type} (cx cy : I -> f32) (l : list I)
  (w h : Z) :
  get_centered_bboxes (map (fun i => [cx i; cy i]) l) w h =
  Ok (map (fun i =>
             [fadd (cy i) (Fin (-0.5 * IZR h)); fadd (cx i) (Fin (-0.5 * IZR w));
              fadd (cy i) (Fin (0.5 * IZR h)); fadd (cx i) (Fin (0.5 * IZR w))])
        l).
Proof.
  unfold get_centered_bboxes. cbv zeta. rewrite map_map.
  rewrite <- (map_map (fun i => [cy i; cx i; cy i; cx i])
                (fun r => match r with
                          | [a; b; c; d] =>
                              [fadd a (Fin (-0.5 * IZR h));
                               fadd b (Fin (-0.5 * IZR w));
                               fadd c (Fin (0.5 * IZR h));
                               fadd d (Fin (0.5 * IZR w))]
                          | _ => []
                          end)).
  apply bcast_checked_one_r. intros r Hr.
  apply in_map_iff in Hr as [i [<- _]]. reflexivity.
Qed.

Lemma pairs_concat_map {I : Type} (f g : I -> f32) (l : list I) :
  pairs (concat (map (fun i => [f i; g i]) l)) = Ok (map (fun i => (f i, g i)) l).
Proof.
  induction l as [|i l IH]; [reflexivity|].
  cbn [map concat app pairs]. rewrite IH. reflexivity.
Qed.

Lemma pts_to_bbox_unfold {I : Type} (y1 x1 y2 x2 : I -> f32) (l : list I)
  (points : list (list xy)) :
  pts_to_bbox points (map (fun i => [y1 i; x1 i; y2 i; x2 i]) l) =
  Ok (map (fun i => map (map (fun p => xy_sub p (x1 i, y1 i))) points) l).
Proof.
  unfold pts_to_bbox, get_bbox_offsets. cbv zeta.
  rewrite map_map. cbn [firstn rev app].
  rewrite pairs_concat_map. cbn [bind]. f_equal.
  bc. apply map_ext; intros i.
  bc. apply map_ext; intros inst.
  bc. reflexivity.
Qed.

Lemma visible_coords (inst : list xy) :
  visible inst ->
  (map fst inst <> [] /\ Forall (fun v => is_finite v = true) (map fst inst)) /\
  (map snd inst <> [] /\ Forall (fun v => is_finite v = true) (map snd inst)).
Proof.
  intros [Hne Hfin].
  repeat split; try (destruct inst; [contradiction | discriminate]);
    apply Forall_map; eapply Forall_impl; [|exact Hfin| |exact Hfin];
    intros p [H1 H2]; assumption.
Qed.


(** ** Datasets and cropping *)

(** C10: on a single NumPy array or tf.Tensor, [make_points_dataset] never
    returns a dataset: the attribute [tf.tensor_slices] does not exist and the
    lookup raises AttributeError; only a list can reach a successful
    return. *)
Theorem make_points_dataset_non_list :
  (forall a : ndarray,
      make_points_dataset (NpArray a) = Raise AttributeError /\
      make_points_dataset (TfTensor a) = Raise AttributeError) /\
  (forall (c : container) (ds : Dataset),
      make_points_dataset c = Ok ds -> exists items, c = PyList items).
Proof.
  split.
  - intros a. split; reflexivity.
  - intros [items|a|a|] ds H.
    + now exists items.
    + discriminate H.
    + discriminate H.
    + discriminate H.
Qed.

(** A list of rank-3 arrays takes the successful path. *)
Lemma make_points_dataset_list_ok (a : ndarray) (items : list ndarray) :
  ndim a = 3%nat ->
  make_points_dataset (PyList (a :: items)) =
  Ok (from_generator (a :: items) (arr_dtype a)).
Proof.
  intros H. cbn [make_points_dataset first_item bind]. now rewrite H.
Qed.

(** The sibling [make_image_dataset] reaches [from_tensor_slices] through
    [tf.data.Dataset]. *)
Lemma make_image_dataset_array_ok (a : ndarray) :
  shape a <> [] -> exists ds, make_image_dataset (NpArray a) = Ok ds.
Proof.
  intros H. cbn. unfold from_tensor_slices.
  destruct (shape a) as [|n rest]; [contradiction|]. now eexists.
Qed.

Section CropProperties.

Variable crop_and_resize :
  list image -> list (list f32) -> list Z -> Z * Z -> list image.

(** C1: [instance_crop] returns no tuple: with [use_ctr_node] false the call
  [get_centered_bboxes(centroids, (box_height, box_width))] lacks a required
  argument and raises TypeError; with [use_ctr_node] true [instance_points]
  is read without having been assigned (UnboundLocalError, unless the
  centroid computation raised before). *)
Theorem instance_crop_raises (img : image) (points : list (list xy))
  (box_height box_width : Z) (use_ctr_node : bool) (ctr_node_ind : nat)
  (normalize_image : bool) :
  (exists e,
      instance_crop crop_and_resize img points box_height box_width
        use_ctr_node ctr_node_ind normalize_image = Raise e) /\
  instance_crop crop_and_resize img points box_height box_width
    false ctr_node_ind normalize_image = Raise TypeError /\
  (forall c,
      get_bbox_centroid_from_node_ind points ctr_node_ind = Ok c ->
      instance_crop crop_and_resize img points box_height box_width
        true ctr_node_ind normalize_image = Raise UnboundLocalError).
Proof.
  assert (F : instance_crop crop_and_resize img points box_height box_width
                false ctr_node_ind normalize_image = Raise TypeError)
    by reflexivity.
  split; [|split; [exact F|]].
  - destruct use_ctr_node.
    + unfold instance_crop.
      destruct (get_bbox_centroid_from_node_ind points ctr_node_ind);
        cbn; eexists; reflexivity.
    + exists TypeError. exact F.
  - intros c Hc. unfold instance_crop. rewrite Hc. reflexivity.
Qed.

End CropProperties.

(** ** The properties at sample inputs *)

Lemma Int_part_three_halves : Int_part (IZR 3 * (1 / 2)) = 1%Z.
Proof. symmetry. apply Int_part_spec. lra. Qed.

(** C3 as stated fails: a 3 x 3 image at scale 1/2 is sampled at 0 and 2, so
    the maps have 2 rows, while floor(3 * 1/2) = 1. *)
Lemma sampling_grid_dims_not_floor :
  exists cm,
    make_confmaps one_landmark 3 3 (1 / 2) 3 = Ok cm /\
    map (@List.length _) cm = [2%nat] /\
    Z.to_nat (Int_part (IZR 3 * (1 / 2))) = 1%nat.
Proof.
  eexists. split; [apply make_confmaps_unfold; (lra || lia)|]. split.
  - cbn [one_landmark map]. rewrite length_map, range_values_length.
    rewrite (range_size_eval 3 (1 / 2) 2); [reflexivity | lra | lia | lra].
  - now rewrite Int_part_three_halves.
Qed.

Lemma sampling_grid_dims_witness :
  pow2_scale (1 / 2) /\
  exists cm,
    make_confmaps one_landmark 3 3 (1 / 2) 3 = Ok cm /\
    Forall (fun m =>
              List.length m = Z.to_nat (Zceil (IZR 3 * (1 / 2))) /\
              Forall (fun row =>
                        List.length row = Z.to_nat (Zceil (IZR 3 * (1 / 2))))
                m)
      cm.
Proof.
  split; [exact pow2_scale_half|].
  apply (sampling_grid_dims one_landmark [] 3 3 (1 / 2) 3 3 pow2_scale_half);
    lia.
Defined.

(** C2 as stated fails: the all-NaN instance gets the centroid (0, 0), not
    NaN. *)
Lemma get_bbox_centroid_all_nan_not_nan :
  get_bbox_centroid hidden_instance = [[Fin 0; Fin 0]; [Fin 2; Fin 4]].
Proof.
  rewrite get_bbox_centroid_unfold. unfold hidden_instance.
  cbn [map]. rewrite (centroid_row_all_nan [(NaN, NaN); (NaN, NaN)])
    by (repeat constructor).
  rewrite (centroid_row_visible [(Fin 1, Fin 2); (Fin 3, Fin 6)])
    by (repeat constructor; discriminate).
  unfold bbox_mid. cbn [map fst snd reduce_segment fold_left].
  rewrite !fmax_fin, !fmin_fin.
  rewrite (proj2 (Rleb_true 1 3)), (proj2 (Rleb_true 2 6)) by lra.
  cbn. repeat f_equal; lra.
Qed.

Lemma get_bbox_centroid_all_nan_witness :
  exists n,
    nth_error (get_bbox_centroid hidden_instance) 0 = Some (repeat (Fin 0) n) /\
    ((exists inst' p, In inst' hidden_instance /\ In p inst' /\ finite_pt p) ->
     n = 2%nat).
Proof.
  apply (get_bbox_centroid_all_nan hidden_instance 0 [(NaN, NaN); (NaN, NaN)]).
  - reflexivity.
  - repeat constructor.
Defined.








Lemma make_pafs_degenerate_edge_witness :
  exists fields pafs,
    instance_pafs [[((Fin 4, Fin 4), (Fin 4, Fin 4))]]
      (range_values 8 (1 / 1)) (range_values 8 (1 / 1)) 3 = Ok fields /\
    make_pafs collapsed_edge [(0, 1)%nat] 8 8 1 3 = Ok pafs /\
    all_finite pafs /\
    entry4 fields 0 4 4 0 = Some (Fin 0, Fin 0).
Proof.
  assert (R4 : (4 < range_size 8 (1 / 1))%nat)
    by (rewrite range_size_unit; lia).
  destruct (make_pafs_degenerate_edge [(0, 1)%nat] 8 8 1 3
              ltac:(lra) ltac:(lia) ltac:(lia) collapsed_edge)
    as [ep [fields [pafs [Hg [Hf [Hp [Hfin Hzero]]]]]]];
    [repeat constructor|].
  injection Hg as <-.
  exists fields, pafs. split; [exact Hf|]. split; [exact Hp|].
  split; [exact Hfin|].
  apply (Hzero 0%nat 0%nat [(Fin 4, Fin 4); (Fin 4, Fin 4)] 0%nat 1%nat
           (Fin 4, Fin 4)); (reflexivity || exact R4).
Defined.

Lemma horizontal_edge_visible : Forall visible horizontal_edge.
Proof.
  repeat constructor; discriminate.
Qed.


(** * Further properties *)

(** ** The bounding-box centroid *)


Lemma fold_fmin_is_min (l : list R) :
  forall a, exists m, fold_left fmin (map Fin l) (Fin a) = Fin m /\ is_min m (a :: l).
Proof.
  induction l as [|x l IH]; intros a.
  - exists a. split; [reflexivity|]. split; [now left|].
    intros y [<-|[]]. lra.
  - cbn [map fold_left]. rewrite fmin_fin.
    destruct (Rleb a x) eqn:E.
    + apply Rleb_true in E. destruct (IH a) as [m [Hm [Hin Hle]]].
      exists m. split; [exact Hm|]. split.
      * destruct Hin as [<-|Hin]; [now left | right; now right].
      * intros y [<-|[<-|Hy]].
        -- apply Hle. now left.
        -- assert (m <= a) by (apply Hle; now left). lra.
        -- apply Hle. now right.
    + apply Rleb_false in E. destruct (IH x) as [m [Hm [Hin Hle]]].
      exists m. split; [exact Hm|]. split.
      * right. exact Hin.
      * intros y [<-|[<-|Hy]].
        -- assert (m <= x) by (apply Hle; now left). lra.
        -- apply Hle. now left.
        -- apply Hle. now right.
Qed.

Lemma fold_fmax_is_max (l : list R) :
  forall a, exists m, fold_left fmax (map Fin l) (Fin a) = Fin m /\ is_max m (a :: l).
Proof.
  induction l as [|x l IH]; intros a.
  - exists a. split; [reflexivity|]. split; [now left|].
    intros y [<-|[]]. lra.
  - cbn [map fold_left]. rewrite fmax_fin.
    destruct (Rleb a x) eqn:E.
    + apply Rleb_true in E. destruct (IH x) as [m [Hm [Hin Hle]]].
      exists m. split; [exact Hm|]. split.
      * right. exact Hin.
      * intros y [<-|[<-|Hy]].
        -- assert (x <= m) by (apply Hle; now left). lra.
        -- apply Hle. now left.
        -- apply Hle. now right.
    + apply Rleb_false in E. destruct (IH a) as [m [Hm [Hin Hle]]].
      exists m. split; [exact Hm|]. split.
      * destruct Hin as [<-|Hin]; [now left | right; now right].
      * intros y [<-|[<-|Hy]].
        -- apply Hle. now left.
        -- assert (a <= m) by (apply Hle; now left). lra.
        -- apply Hle. now right.
Qed.

Lemma bbox_mid_reals (l : list R) :
  l <> [] ->
  exists mn mx,
    bbox_mid (map Fin l) = Fin (0.5 * (mx + mn)) /\ is_min mn l /\ is_max mx l.
Proof.
  intros H. destruct l as [|a l]; [contradiction|].
  destruct (fold_fmin_is_min l a) as [mn [E1 H1]].
  destruct (fold_fmax_is_max l a) as [mx [E2 H2]].
  exists mn, mx. unfold bbox_mid. cbn [map reduce_segment].
  rewrite E1, E2. repeat split; try apply H1; try apply H2.
Qed.


Lemma real_points_visible (l : list (R * R)) : l <> [] -> visible (real_points l).
Proof.
  intros H. split.
  - destruct l; [contradiction | discriminate].
  - apply Forall_forall. intros p Hp. apply in_map_iff in Hp as [q [<- _]].
    split; reflexivity.
Qed.

Lemma to_tensor_row2 (rt : list (list f32)) (i : nat) (r : list f32) :
  Forall (fun r => (List.length r <= 2)%nat) rt ->
  nth_error rt i = Some r -> List.length r = 2%nat ->
  nth_error (to_tensor rt) i = Some r.
Proof.
  intros Hall Hi Hr. unfold to_tensor. rewrite nth_error_map, Hi.
  cbn [option_map]. pose proof (row_width_le rt 2 Hall) as W.
  rewrite Hr. replace (row_width rt - 2)%nat with 0%nat by lia.
  now rewrite app_nil_r.
Qed.

Lemma centroid_rows_short (points : list (list xy)) :
  Forall (fun r => (List.length r <= 2)%nat) (map centroid_row points).
Proof.
  apply Forall_forall. intros r Hr. apply in_map_iff in Hr as [inst [<- _]].
  apply centroid_row_length.
Qed.

(** X1: the centroid of an instance whose landmarks all have real coordinates
    is the middle of its bounding box: per axis, half the sum of the least
    and the greatest coordinate of the instance. *)
Theorem get_bbox_centroid_middle (points : list (list xy)) (i : nat)
  (l : list (R * R)) :
  l <> [] ->
  nth_error points i = Some (real_points l) ->
  exists xmin xmax ymin ymax,
    nth_error (get_bbox_centroid points) i =
    Some [Fin (0.5 * (xmax + xmin)); Fin (0.5 * (ymax + ymin))] /\
    is_min xmin (map fst l) /\ is_max xmax (map fst l) /\
    is_min ymin (map snd l) /\ is_max ymax (map snd l).
Proof.
  intros Hne Hi.
  assert (Hx : map fst l <> []) by (destruct l; [contradiction | discriminate]).
  assert (Hy : map snd l <> []) by (destruct l; [contradiction | discriminate]).
  destruct (bbox_mid_reals _ Hx) as [xmin [xmax [Ex [Hxmin Hxmax]]]].
  destruct (bbox_mid_reals _ Hy) as [ymin [ymax [Ey [Hymin Hymax]]]].
  exists xmin, xmax, ymin, ymax. repeat split; try assumption;
    try apply Hxmin; try apply Hxmax; try apply Hymin; try apply Hymax.
  rewrite get_bbox_centroid_unfold.
  assert (R2 : centroid_row (real_points l) =
               [Fin (0.5 * (xmax + xmin)); Fin (0.5 * (ymax + ymin))]).
  { rewrite (centroid_row_visible _ (real_points_visible l Hne)).
    unfold real_points. rewrite !map_map. cbn [fst snd].
    rewrite <- (map_map fst Fin), <- (map_map snd Fin). now rewrite Ex, Ey. }
  apply to_tensor_row2.
  - apply centroid_rows_short.
  - rewrite nth_error_map, Hi. cbn [option_map]. now rewrite R2.
  - reflexivity.
Qed.

Lemma get_bbox_centroid_middle_witness :
  exists xmin xmax ymin ymax,
    nth_error (get_bbox_centroid [real_points [(1, 2); (3, 6)]]) 0 =
    Some [Fin (0.5 * (xmax + xmin)); Fin (0.5 * (ymax + ymin))] /\
    is_min xmin (map fst [(1, 2); (3, 6)]) /\ is_max xmax (map fst [(1, 2); (3, 6)]) /\
    is_min ymin (map snd [(1, 2); (3, 6)]) /\ is_max ymax (map snd [(1, 2); (3, 6)]).
Proof.
  apply (get_bbox_centroid_middle [real_points [(1, 2); (3, 6)]] 0
           [(1, 2); (3, 6)]); [discriminate | reflexivity].
Defined.

Lemma row_width_cons {A : Type} (r : list A) (rows : list (list A)) :
  row_width (r :: rows) = Nat.max (List.length r) (row_width rows).
Proof. reflexivity. Qed.

Lemma column_cons (r : list f32) (rows : list (list f32)) (j : nat) :
  column (r :: rows) j =
  (match nth_error r j with Some v => [v] | None => [] end) ++ column rows j.
Proof. reflexivity. Qed.

Lemma column_nonempty (rows : list (list f32)) (j : nat) :
  (j < row_width rows)%nat -> column rows j <> [].
Proof.
  induction rows as [|r rows IH]; intros H.
  - cbn in H. lia.
  - rewrite row_width_cons in H. rewrite column_cons.
    destruct (nth_error r j) eqn:E; [discriminate|].
    apply nth_error_None in E. cbn [app]. apply IH. lia.
Qed.

Lemma column_in (rows : list (list f32)) (j : nat) (v : f32) :
  In v (column rows j) -> exists r, In r rows /\ In v r.
Proof.
  unfold column. intros H. apply in_flat_map in H as [r [Hr Hv]].
  exists r. split; [exact Hr|].
  destruct (nth_error r j) eqn:E; [|contradiction].
  destruct Hv as [<-|[]]. eapply nth_error_In, E.
Qed.

Lemma bbox_mid_finite (l : list f32) :
  l <> [] -> Forall (fun v => is_finite v = true) l ->
  is_finite (bbox_mid l) = true.
Proof.
  intros Hne Hfin. destruct (bbox_mid_shift 0 l Hne Hfin) as [c [-> _]].
  reflexivity.
Qed.

Lemma centroid_row_finite (inst : list xy) :
  Forall (fun v => is_finite v = true) (centroid_row inst).
Proof.
  unfold centroid_row. cbv zeta. apply Forall_map, Forall_forall.
  intros j Hj. apply in_seq in Hj. apply bbox_mid_finite.
  - apply column_nonempty. lia.
  - apply Forall_forall. intros v Hv.
    apply column_in in Hv as [r [Hr Hv]].
    apply in_map_iff in Hr as [p [<- _]].
    apply filter_In in Hv. apply Hv.
Qed.

Lemma finite_reals (l : list f32) :
  Forall (fun v => is_finite v = true) l -> exists lr, l = map Fin lr.
Proof.
  induction 1 as [|v l Hv _ [lr ->]]; [now exists []|].
  destruct (finite_is_fin _ Hv) as [x ->]. now exists (x :: lr).
Qed.

Lemma bbox_mid_within (B : R) (l : list f32) :
  l <> [] -> Forall (fun v => is_finite v = true) l -> Forall (within B) l ->
  exists c, bbox_mid l = Fin c /\ Rabs c <= B.
Proof.
  intros Hne Hfin Hb. destruct (finite_reals l Hfin) as [lr ->].
  assert (Hr : lr <> []) by (destruct lr; [contradiction | discriminate]).
  destruct (bbox_mid_reals lr Hr) as [mn [mx [E [[Imn _] [Imx _]]]]].
  exists (0.5 * (mx + mn)). split; [exact E|].
  rewrite Forall_forall in Hb.
  pose proof (Hb (Fin mn) (in_map Fin lr mn Imn)) as Bmn.
  pose proof (Hb (Fin mx) (in_map Fin lr mx Imx)) as Bmx.
  cbn [within] in Bmn, Bmx.
  apply Rabs_le. apply Rabs_bounds in Bmn, Bmx. lra.
Qed.

Lemma centroid_row_within (B : R) (inst : list xy) :
  Forall (fun p => within B (fst p) /\ within B (snd p)) inst ->
  Forall (fun v => exists c, v = Fin c /\ Rabs c <= B) (centroid_row inst).
Proof.
  intros Hb. unfold centroid_row. cbv zeta. apply Forall_map, Forall_forall.
  intros j Hj. apply in_seq in Hj. apply bbox_mid_within.
  - apply column_nonempty. lia.
  - apply Forall_forall. intros v Hv.
    apply column_in in Hv as [r [Hr Hv]].
    apply in_map_iff in Hr as [p [<- _]].
    apply filter_In in Hv. apply Hv.
  - apply Forall_forall. intros v Hv.
    apply column_in in Hv as [r [Hr Hv]].
    apply in_map_iff in Hr as [p [<- Hp]].
    apply filter_In in Hv as [Hv _].
    rewrite Forall_forall in Hb. destruct (Hb p Hp) as [B1 B2].
    destruct Hv as [<-|[<-|[]]]; assumption.
Qed.

Lemma finite_not_nan (v : f32) : is_finite v = true -> is_nan v = false.
Proof. now destruct v. Qed.

(** X2: for every input [get_bbox_centroid] returns one row per instance,
    the rows have one common length of at most 2, and no value is NaN.  When
    the finite coordinates of the points lie within [-B, B], for a bound B
    of at most 2^126 (so that the sum of two coordinates is in the range of
    float32), every value is a number within [-B, B]. *)
Theorem get_bbox_centroid_finite (points : list (list xy)) :
  List.length (get_bbox_centroid points) = List.length points /\
  (exists n, (n <= 2)%nat /\
     Forall (fun row => List.length row = n /\
                        Forall (fun v => is_nan v = false) row)
       (get_bbox_centroid points)) /\
  forall B,
    0 <= B <= 2 ^ 126 ->
    Forall (Forall (fun p => within B (fst p) /\ within B (snd p))) points ->
    Forall (Forall (fun v => exists c, v = Fin c /\ Rabs c <= B))
      (get_bbox_centroid points).
Proof.
  rewrite get_bbox_centroid_unfold. unfold to_tensor.
  split; [now rewrite !length_map|]. split.
  - exists (row_width (map centroid_row points)). split.
    + apply row_width_le, centroid_rows_short.
    + apply Forall_map, Forall_map, Forall_forall. intros inst Hin.
      assert (L : (List.length (centroid_row inst)
                   <= row_width (map centroid_row points))%nat)
        by (apply row_width_ge; now apply in_map).
      split.
      * rewrite length_app, repeat_length. lia.
      * apply Forall_app. split.
        -- eapply Forall_impl; [|apply centroid_row_finite].
           intros v. apply finite_not_nan.
        -- apply Forall_forall. intros v Hv. apply repeat_spec in Hv.
           now subst.
  - intros B [HB _] Hb. apply Forall_map, Forall_map, Forall_forall.
    intros inst Hin. apply Forall_app. split.
    + apply centroid_row_within. rewrite Forall_forall in Hb. now apply Hb.
    + apply Forall_forall. intros v Hv. apply repeat_spec in Hv. subst.
      exists 0. split; [reflexivity|]. rewrite Rabs_R0. exact HB.
Qed.

Lemma column_filter (m : xy -> list f32) (inst : list xy) (j : nat) :
  Forall (fun p => both_finite p = false -> m p = []) inst ->
  column (map m inst) j = column (map m (filter both_finite inst)) j.
Proof.
  induction 1 as [|p inst Hp _ IH]; [reflexivity|].
  cbn [map filter]. destruct (both_finite p).
  - cbn [map]. rewrite !column_cons. now rewrite IH.
  - rewrite column_cons, (Hp eq_refl).
    destruct j; cbn [nth_error app]; exact IH.
Qed.

Lemma row_width_filter (m : xy -> list f32) (inst : list xy) :
  Forall (fun p => both_finite p = false -> m p = []) inst ->
  row_width (map m inst) = row_width (map m (filter both_finite inst)).
Proof.
  induction 1 as [|p inst Hp _ IH]; [reflexivity|].
  cbn [map filter]. destruct (both_finite p).
  - cbn [map]. rewrite !row_width_cons. now rewrite IH.
  - rewrite row_width_cons, (Hp eq_refl). cbn [List.length Nat.max]. exact IH.
Qed.

Lemma centroid_row_filter (inst : list xy) :
  Forall (fun p => finite_pt p \/ hidden p) inst ->
  centroid_row inst = centroid_row (filter both_finite inst).
Proof.
  intros H. unfold centroid_row. cbv zeta.
  assert (H' : Forall (fun p => both_finite p = false ->
                        filter is_finite [fst p; snd p] = []) inst).
  { eapply Forall_impl; [|exact H]. intros p [[H1 H2]|[H1 H2]] Hb.
    - unfold both_finite in Hb. rewrite H1, H2 in Hb. discriminate.
    - cbn [filter]. now rewrite H1, H2. }
  rewrite <- (row_width_filter _ inst H'). apply map_ext. intros j.
  now rewrite <- (column_filter _ inst j H').
Qed.

Lemma filter_both_finite_visible (inst : list xy) :
  (exists p, In p inst /\ finite_pt p) -> visible (filter both_finite inst).
Proof.
  intros [p [Hin [H1 H2]]]. split.
  - intros E. assert (Hp : In p (filter both_finite inst)).
    { apply filter_In. split; [exact Hin|]. unfold both_finite.
      now rewrite H1, H2. }
    rewrite E in Hp. contradiction.
  - apply Forall_forall. intros q Hq. apply filter_In in Hq as [_ Hq].
    unfold both_finite in Hq. apply andb_true_iff in Hq. exact Hq.
Qed.

(** X3: missing landmarks do not move the centroid.  For an instance whose
    landmarks have either two finite coordinates or none, and which has at
    least one of the first kind, the centroid is that of its visible
    landmarks alone. *)
Theorem get_bbox_centroid_ignores_hidden (points : list (list xy)) (i : nat)
  (inst : list xy) :
  nth_error points i = Some inst ->
  Forall (fun p => finite_pt p \/ hidden p) inst ->
  (exists p, In p inst /\ finite_pt p) ->
  nth_error (get_bbox_centroid points) i =
  nth_error (get_bbox_centroid [filter both_finite inst]) 0.
Proof.
  intros Hi Hwf Hsome.
  pose proof (filter_both_finite_visible inst Hsome) as Hv.
  pose proof (centroid_row_visible _ Hv) as E.
  rewrite (get_bbox_centroid_visible [filter both_finite inst])
    by (constructor; [exact Hv | constructor]).
  cbn [map nth_error]. rewrite <- E.
  rewrite get_bbox_centroid_unfold. apply to_tensor_row2.
  - apply centroid_rows_short.
  - rewrite nth_error_map, Hi. cbn [option_map].
    now rewrite (centroid_row_filter inst Hwf).
  - now rewrite E.
Qed.

Lemma get_bbox_centroid_ignores_hidden_witness :
  nth_error (get_bbox_centroid one_landmark) 0 =
  nth_error (get_bbox_centroid [filter both_finite [(Fin 5, Fin 5); (NaN, NaN)]]) 0.
Proof.
  apply (get_bbox_centroid_ignores_hidden one_landmark 0
           [(Fin 5, Fin 5); (NaN, NaN)]).
  - reflexivity.
  - constructor; [left; split; reflexivity|].
    constructor; [right; split; reflexivity | constructor].
  - exists (Fin 5, Fin 5). split; [now left | split; reflexivity].
Defined.

Lemma visible_shift (dx dy : R) (inst : list xy) :
  visible inst -> visible (map (fun p => xy_sub p (Fin dx, Fin dy)) inst).
Proof.
  intros [Hne Hfin]. split.
  - destruct inst; [contradiction | discriminate].
  - apply Forall_map. eapply Forall_impl; [|exact Hfin].
    intros p [H1 H2]. unfold finite_pt, xy_sub. cbn [fst snd].
    destruct (finite_is_fin _ H1) as [a ->].
    destruct (finite_is_fin _ H2) as [b ->]. split; reflexivity.
Qed.

(** X4: the centroid follows a translation of the points.  For a tensor
    without missing landmarks, moving every landmark by (-dx, -dy) moves
    every centroid by (-dx, -dy). *)
Theorem get_bbox_centroid_translate (points : list (list xy)) (dx dy : R) :
  Forall visible points ->
  get_bbox_centroid
    (map (map (fun p => xy_sub p (Fin dx, Fin dy))) points) =
  map (fun c => zip_with fsub c [Fin dx; Fin dy]) (get_bbox_centroid points).
Proof.
  intros Hvis. rewrite (get_bbox_centroid_visible _ Hvis).
  rewrite get_bbox_centroid_visible.
  2:{ apply Forall_map. eapply Forall_impl; [|exact Hvis].
      intros inst. apply visible_shift. }
  rewrite !map_map. apply map_ext_in. intros inst Hin.
  assert (Hv : visible inst) by (rewrite Forall_forall in Hvis; now apply Hvis).
  destruct (visible_coords inst Hv) as [[Hxn Hxf] [Hyn Hyf]].
  destruct (bbox_mid_shift dx _ Hxn Hxf) as [cx [Ecx Sx]].
  destruct (bbox_mid_shift dy _ Hyn Hyf) as [cy [Ecy Sy]].
  rewrite !map_map. cbn [xy_sub fst snd].
  rewrite map_map in Sx, Sy. unfold shift in Sx, Sy.
  rewrite Sx, Sy, Ecx, Ecy. reflexivity.
Qed.

Lemma get_bbox_centroid_translate_witness :
  get_bbox_centroid
    (map (map (fun p => xy_sub p (Fin 1, Fin 2))) horizontal_edge) =
  map (fun c => zip_with fsub c [Fin 1; Fin 2]) (get_bbox_centroid horizontal_edge).
Proof.
  apply (get_bbox_centroid_translate horizontal_edge 1 2).
  exact horizontal_edge_visible.
Defined.

(** ** The centroid taken from a node *)

Lemma mapM_raise {A B : Type} (f : A -> result B) (e : exn) (l : list A) :
  (exists x, In x l /\ f x = Raise e) ->
  (forall x e', In x l -> f x = Raise e' -> e' = e) ->
  mapM f l = Raise e.
Proof.
  induction l as [|x l IH]; intros [x0 [Hin Hx0]] Hall; [contradiction|].
  cbn [mapM]. destruct (f x) as [y|e'] eqn:E.
  - cbn [bind]. rewrite IH; [reflexivity| |].
    + destruct Hin as [->|Hin]; [congruence|]. now exists x0.
    + intros x1 e1 H1. apply Hall. now right.
  - cbn [bind]. f_equal. apply (Hall x); [now left | exact E].
Qed.

Lemma mapM_combine_map {A B C D : Type} (f : B -> C -> result D)
  (g : A -> B) (h : A -> C) (l : list A) :
  mapM (fun p => f (fst p) (snd p)) (combine (map g l) (map h l)) =
  mapM (fun x => f (g x) (h x)) l.
Proof.
  induction l as [|x l IH]; [reflexivity|].
  cbn [map combine mapM fst snd]. now rewrite IH.
Qed.

Lemma bcast_checked_map {A B C D : Type} (f : B -> C -> result D)
  (g : A -> B) (h : A -> C) (l : list A) :
  bcast_checked f (map g l) (map h l) = mapM (fun x => f (g x) (h x)) l.
Proof.
  destruct l as [|x [|x' l]]; try reflexivity.
  unfold bcast_checked. cbn [map]. cbn [List.length].
  rewrite !length_map, Nat.eqb_refl.
  apply (mapM_combine_map f g h (x :: x' :: l)).
Qed.

Lemma centroid_row_seen (inst : list xy) :
  seen inst -> List.length (centroid_row inst) = 2%nat.
Proof.
  intros [p [Hp Hfin]]. apply Nat.le_antisymm; [apply centroid_row_length|].
  unfold centroid_row. cbv zeta. rewrite length_map, length_seq.
  apply (row_width_ge _ [fst p; snd p]).
  apply in_map_iff. exists p. split; [|exact Hp]. now apply mask_finite_pt.
Qed.

Lemma to_tensor_full (rt : list (list f32)) (k : nat) :
  Forall (fun r => List.length r = k) rt -> to_tensor rt = rt.
Proof.
  intros H. unfold to_tensor.
  assert (W : (row_width rt <= k)%nat).
  { apply row_width_le. eapply Forall_impl; [|exact H]. intros r Hr.
    cbn beta in Hr. lia. }
  erewrite map_ext_in; [apply map_id|]. intros r Hr.
  rewrite Forall_forall in H. rewrite (H r Hr).
  replace (row_width rt - k)%nat with 0%nat by lia. apply app_nil_r.
Qed.

Lemma get_bbox_centroid_seen (points : list (list xy)) :
  Forall seen points -> get_bbox_centroid points = map centroid_row points.
Proof.
  intros H. rewrite get_bbox_centroid_unfold. apply (to_tensor_full _ 2).
  apply Forall_map. eapply Forall_impl; [|exact H].
  intros inst. apply centroid_row_seen.
Qed.

Lemma gather_node (points : list (list xy)) (node_ind : nat) :
  Forall (fun inst => (node_ind < List.length inst)%nat) points ->
  mapM (fun inst => index inst node_ind) points =
  Ok (map (fun inst => nth node_ind inst (NaN, NaN)) points).
Proof.
  intros H. apply mapM_ok. intros inst Hin. apply index_nth.
  rewrite Forall_forall in H. now apply H.
Qed.

Lemma get_bbox_centroid_length (points : list (list xy)) :
  List.length (get_bbox_centroid points) = List.length points.
Proof.
  rewrite get_bbox_centroid_unfold. unfold to_tensor. now rewrite !length_map.
Qed.

(** With at least one instance the selection is the broadcast of the node
    coordinates against the bounding-box centroids. *)
Lemma node_ind_select (points : list (list xy)) (node_ind : nat) :
  points <> [] ->
  get_bbox_centroid_from_node_ind points node_ind =
  (gathered <- mapM (fun inst => index inst node_ind) points ;;
   bcast_checked (bcast_checked (fun c a => Ok (if is_nan c then a else c)))
     (map (fun p => [fst p; snd p]) gathered) (get_bbox_centroid points)).
Proof.
  intros Hne. unfold get_bbox_centroid_from_node_ind.
  destruct (mapM (fun inst => index inst node_ind) points) as [g|e];
    [|reflexivity].
  cbn [bind]. cbv zeta.
  pose proof (get_bbox_centroid_length points) as L.
  destruct (get_bbox_centroid points) as [|r rows]; [|reflexivity].
  destruct points; [contradiction | discriminate].
Qed.

(** X5: [get_bbox_centroid_from_node_ind] on a tensor with at least one
    instance, in which every instance has the node and at least one visible
    landmark: the centroid of an instance is the node itself when the node
    is visible, and the centroid of the bounding box when the node's
    coordinates are NaN. *)
Theorem get_bbox_centroid_from_node_ind_fallback (points : list (list xy))
  (node_ind : nat) :
  points <> [] ->
  Forall (fun inst => (node_ind < List.length inst)%nat /\ seen inst) points ->
  exists centroids,
    get_bbox_centroid_from_node_ind points node_ind = Ok centroids /\
    List.length centroids = List.length points /\
    forall i inst p,
      nth_error points i = Some inst ->
      nth_error inst node_ind = Some p ->
      (finite_pt p -> nth_error centroids i = Some [fst p; snd p]) /\
      (nan_pt p ->
       nth_error centroids i = nth_error (get_bbox_centroid points) i).
Proof.
  intros Hne H.
  assert (Hin : Forall (fun inst => (node_ind < List.length inst)%nat) points)
    by (eapply Forall_impl; [|exact H]; now intros inst [? _]).
  assert (Hseen : Forall seen points)
    by (eapply Forall_impl; [|exact H]; now intros inst [_ ?]).
  rewrite (node_ind_select _ _ Hne).
  rewrite (gather_node _ _ Hin). cbn [bind].
  rewrite (get_bbox_centroid_seen _ Hseen), map_map.
  rewrite bcast_checked_map.
  set (sel := fun c a : f32 => if is_nan c then a else c).
  rewrite (mapM_ok _
             (fun inst =>
                zip_with sel
                  [fst (nth node_ind inst (NaN, NaN));
                   snd (nth node_ind inst (NaN, NaN))]
                  (centroid_row inst))).
  2:{ intros inst Hi. rewrite Forall_forall in Hseen.
      pose proof (centroid_row_seen inst (Hseen inst Hi)) as L.
      destruct (centroid_row inst) as [|a [|b [|c r]]]; try discriminate.
      reflexivity. }
  eexists. split; [reflexivity|]. split; [apply length_map|].
  intros i inst p Hi Hp. rewrite !nth_error_map, Hi. cbn [option_map].
  rewrite (nth_of_nth_error _ _ (NaN, NaN) _ Hp).
  assert (Hs : seen inst).
  { rewrite Forall_forall in Hseen. apply Hseen. eapply nth_error_In, Hi. }
  pose proof (centroid_row_seen inst Hs) as L.
  destruct (centroid_row inst) as [|a [|b [|c r]]]; try discriminate.
  split.
  - intros [H1 H2].
    destruct (finite_is_fin _ H1) as [x ->].
    destruct (finite_is_fin _ H2) as [y ->]. reflexivity.
  - intros [-> ->]. reflexivity.
Qed.

Lemma get_bbox_centroid_from_node_ind_fallback_witness :
  exists centroids,
    get_bbox_centroid_from_node_ind one_landmark 1 = Ok centroids /\
    List.length centroids = List.length one_landmark /\
    forall i inst p,
      nth_error one_landmark i = Some inst ->
      nth_error inst 1%nat = Some p ->
      (finite_pt p -> nth_error centroids i = Some [fst p; snd p]) /\
      (nan_pt p ->
       nth_error centroids i = nth_error (get_bbox_centroid one_landmark) i).
Proof.
  apply (get_bbox_centroid_from_node_ind_fallback one_landmark 1);
    [discriminate|].
  constructor; [|constructor]. split; [cbn; lia|].
  exists (Fin 5, Fin 5). split; [now left | split; reflexivity].
Defined.

(** X6: a node index that some instance does not have makes
    [get_bbox_centroid_from_node_ind] raise InvalidArgumentError, the error
    of [tf.gather]. *)
Theorem get_bbox_centroid_from_node_ind_out_of_range
  (points : list (list xy)) (node_ind : nat) :
  (exists inst, In inst points /\ (List.length inst <= node_ind)%nat) ->
  get_bbox_centroid_from_node_ind points node_ind = Raise InvalidArgumentError.
Proof.
  intros [inst [Hin Hlen]]. unfold get_bbox_centroid_from_node_ind.
  rewrite (mapM_raise _ InvalidArgumentError); [reflexivity| |].
  - exists inst. split; [exact Hin|]. unfold index.
    apply nth_error_None in Hlen. now rewrite Hlen.
  - intros x e' _. unfold index. destruct (nth_error x node_ind); congruence.
Qed.

Lemma get_bbox_centroid_from_node_ind_out_of_range_witness :
  get_bbox_centroid_from_node_ind one_landmark 2 = Raise InvalidArgumentError.
Proof.
  apply (get_bbox_centroid_from_node_ind_out_of_range one_landmark 2).
  exists [(Fin 5, Fin 5); (NaN, NaN)]. split; [now left | cbn; lia].
Defined.

Lemma get_bbox_centroid_no_landmark (points : list (list xy)) :
  Forall (Forall nan_pt) points ->
  get_bbox_centroid points = map (fun _ => []) points.
Proof.
  intros H. rewrite get_bbox_centroid_unfold.
  rewrite (map_ext_in centroid_row (fun _ => [])).
  2:{ intros inst Hin. apply centroid_row_all_nan.
      rewrite Forall_forall in H. now apply H. }
  apply (to_tensor_full _ 0). apply Forall_map, Forall_forall. reflexivity.
Qed.

(** X7: on a non-empty tensor without any visible coordinate the fallback of
    [get_bbox_centroid_from_node_ind] cannot be formed: the bounding-box
    centroids have no column, and selecting between them and the (n, 2)
    node coordinates raises InvalidArgumentError. *)
Theorem get_bbox_centroid_from_node_ind_no_landmark
  (points : list (list xy)) (node_ind : nat) :
  points <> [] ->
  Forall (Forall nan_pt) points ->
  get_bbox_centroid_from_node_ind points node_ind = Raise InvalidArgumentError.
Proof.
  intros Hne Hnan.
  destruct (Forall_Exists_dec
              (fun inst => (node_ind < List.length inst)%nat)
              (fun inst => lt_dec node_ind (List.length inst)) points)
    as [Hin|Hout].
  - rewrite (node_ind_select _ _ Hne).
    rewrite (gather_node _ _ Hin). cbn [bind].
    rewrite (get_bbox_centroid_no_landmark _ Hnan), map_map.
    rewrite bcast_checked_map.
    apply mapM_raise.
    + destruct points as [|inst points]; [contradiction|].
      exists inst. split; [now left | reflexivity].
    + intros x e' _. cbn. congruence.
  - unfold get_bbox_centroid_from_node_ind.
    rewrite (mapM_raise _ InvalidArgumentError); [reflexivity| |].
    + apply Exists_exists in Hout as [inst [Hin Hlen]].
      exists inst. split; [exact Hin|]. unfold index.
      assert (L : (List.length inst <= node_ind)%nat) by lia.
      apply nth_error_None in L. now rewrite L.
    + intros x e' _. unfold index. destruct (nth_error x node_ind); congruence.
Qed.

Lemma get_bbox_centroid_from_node_ind_no_landmark_witness :
  get_bbox_centroid_from_node_ind [[(NaN, NaN); (NaN, NaN)]] 0 =
  Raise InvalidArgumentError.
Proof.
  apply (get_bbox_centroid_from_node_ind_no_landmark [[(NaN, NaN); (NaN, NaN)]] 0).
  - discriminate.
  - repeat constructor.
Defined.

(** ** Boxes *)

(** Rows of finite numbers are equal when their elements are. *)
Ltac fin_rows :=
  repeat (apply f_equal2; [apply f_equal; try lra|]); try reflexivity.

(** X8: [get_centered_bboxes] on centroids (cx, cy) with real coordinates
    returns, for each, the box (y1, x1, y2, x2) of the given width and height
    centred on it: rows first, although the centroid is (x, y). *)
Theorem get_centered_bboxes_centered (cs : list (R * R)) (w h : Z) :
  get_centered_bboxes (map (fun c => [Fin (fst c); Fin (snd c)]) cs) w h =
  Ok (map (fun c => box_row (centered_box w h c)) cs).
Proof.
  rewrite (get_centered_bboxes_unfold
             (fun c => Fin (fst c)) (fun c => Fin (snd c))).
  f_equal. apply map_ext. intros [cx cy]. cbn [fst snd fadd box_row centered_box].
  fin_rows.
Qed.

(** X9: boxes cannot be made for a non-empty tensor without any visible
    coordinate: its centroids have no column, and adding the four box
    offsets raises InvalidArgumentError. *)
Theorem get_centered_bboxes_no_landmark (points : list (list xy)) (w h : Z) :
  points <> [] ->
  Forall (Forall nan_pt) points ->
  get_centered_bboxes (get_bbox_centroid points) w h =
  Raise InvalidArgumentError.
Proof.
  intros Hne Hnan. rewrite (get_bbox_centroid_no_landmark _ Hnan).
  unfold get_centered_bboxes. cbv zeta. rewrite map_map. cbn [rev app].
  destruct points as [|i1 [|i2 points]]; [contradiction | reflexivity |].
  reflexivity.
Qed.

Lemma get_centered_bboxes_no_landmark_witness :
  get_centered_bboxes (get_bbox_centroid [[(NaN, NaN); (NaN, NaN)]]) 4 4 =
  Raise InvalidArgumentError.
Proof.
  apply (get_centered_bboxes_no_landmark [[(NaN, NaN); (NaN, NaN)]] 4 4).
  - discriminate.
  - repeat constructor.
Defined.

Lemma rows_of_width2 (rows : list (list f32)) :
  Forall (fun r => List.length r = 2%nat) rows ->
  rows = map (fun r => [nth 0 r NaN; nth 1 r NaN]) rows.
Proof.
  intros H. rewrite <- (map_id rows) at 1. apply map_ext_in. intros r Hr.
  rewrite Forall_forall in H. specialize (H r Hr).
  destruct r as [|a [|b [|c r]]]; try discriminate. reflexivity.
Qed.

Lemma centroid_width2 (points : list (list xy)) :
  Exists seen points -> row_width (map centroid_row points) = 2%nat.
Proof.
  intros H. apply Exists_exists in H as [inst [Hin Hs]].
  apply Nat.le_antisymm.
  - apply row_width_le, centroid_rows_short.
  - rewrite <- (centroid_row_seen inst Hs). apply row_width_ge.
    now apply in_map.
Qed.

Lemma get_bbox_centroid_width2 (points : list (list xy)) :
  Exists seen points ->
  Forall (fun r => List.length r = 2%nat) (get_bbox_centroid points).
Proof.
  intros H. rewrite get_bbox_centroid_unfold. unfold to_tensor.
  rewrite (centroid_width2 _ H).
  apply Forall_map, Forall_map, Forall_forall. intros i _.
  rewrite length_app, repeat_length.
  pose proof (centroid_row_length i). lia.
Qed.

(** X10: an instance without visible landmarks, in a tensor that has a
    visible landmark elsewhere, gets a box centred on the origin (0, 0): its
    centroid is the zero padding, not a missing value. *)
Theorem get_centered_bboxes_hidden_instance (points : list (list xy))
  (w h : Z) (i : nat) (inst : list xy) :
  nth_error points i = Some inst ->
  Forall nan_pt inst ->
  Exists seen points ->
  exists bboxes,
    get_centered_bboxes (get_bbox_centroid points) w h = Ok bboxes /\
    nth_error bboxes i = Some (box_row (centered_box w h (0, 0))).
Proof.
  intros Hi Hnan Hseen.
  pose proof (get_bbox_centroid_width2 points Hseen) as W2.
  assert (Hrow : nth_error (get_bbox_centroid points) i = Some [Fin 0; Fin 0]).
  { rewrite get_bbox_centroid_unfold. unfold to_tensor.
    rewrite !nth_error_map, Hi. cbn [option_map].
    rewrite (centroid_row_all_nan _ Hnan), (centroid_width2 _ Hseen).
    reflexivity. }
  rewrite (rows_of_width2 _ W2).
  rewrite (get_centered_bboxes_unfold
             (fun r => nth 0 r NaN) (fun r => nth 1 r NaN)).
  eexists. split; [reflexivity|].
  rewrite nth_error_map, Hrow. cbn [option_map nth fadd box_row centered_box fst snd].
  apply f_equal. fin_rows.
Qed.

Lemma get_centered_bboxes_hidden_instance_witness :
  exists bboxes,
    get_centered_bboxes (get_bbox_centroid hidden_instance) 4 6 = Ok bboxes /\
    nth_error bboxes 0 = Some (box_row (centered_box 4 6 (0, 0))).
Proof.
  apply (get_centered_bboxes_hidden_instance hidden_instance 4 6 0
           [(NaN, NaN); (NaN, NaN)]).
  - reflexivity.
  - repeat constructor.
  - apply Exists_cons_tl, Exists_cons_hd.
    exists (Fin 1, Fin 2). split; [now left | split; reflexivity].
Defined.

Lemma normalize_bboxes_rows (bs : list (R * R * R * R)) (h w : Z) :
  h <> 1%Z -> w <> 1%Z ->
  normalize_bboxes (map box_row bs) h w =
  Ok (map (fun b => box_row (scaled_box h w b)) bs).
Proof.
  intros Hh Hw. unfold normalize_bboxes. cbv zeta.
  assert (Nh : IZR (h - 1) <> 0) by (apply not_0_IZR; lia).
  assert (Nw : IZR (w - 1) <> 0) by (apply not_0_IZR; lia).
  rewrite (bcast_checked_one_r _
    (fun r => match r with
              | [a; b; c; d] =>
                  [fdiv a (Fin (IZR (h - 1))); fdiv b (Fin (IZR (w - 1)));
                   fdiv c (Fin (IZR (h - 1))); fdiv d (Fin (IZR (w - 1)))]
              | _ => []
              end)).
  - f_equal. rewrite map_map. apply map_ext. intros [[[y1 x1] y2] x2].
    cbn [box_row scaled_box]. now rewrite !fdiv_fin.
  - intros r Hr. apply in_map_iff in Hr as [[[[y1 x1] y2] x2] [<- _]].
    reflexivity.
Qed.

Lemma unit_quotient (y b : R) : 0 < b -> 0 <= y <= b -> 0 <= y / b <= 1.
Proof.
  intros Hb [H0 H1]. pose proof (Rinv_0_lt_compat b Hb) as Hi.
  assert (E : b * / b = 1) by (apply Rinv_r; lra).
  unfold Rdiv. split; nra.
Qed.

(** X11: [normalize_bboxes] divides the rows y1, y2 by (height - 1) and the
    columns x1, x2 by (width - 1); for an image of at least two rows and two
    columns every box that lies on the pixel grid lands in the unit square. *)
Theorem normalize_bboxes_unit (bs : list (R * R * R * R)) (h w : Z) :
  (1 < h)%Z -> (1 < w)%Z ->
  normalize_bboxes (map box_row bs) h w =
  Ok (map (fun b => box_row (scaled_box h w b)) bs) /\
  forall b, box_in_image h w b -> box_in_unit (scaled_box h w b).
Proof.
  intros Hh Hw. split; [apply normalize_bboxes_rows; lia|].
  intros [[[y1 x1] y2] x2] [[Hy1 Hy2] [Hx1 Hx2]].
  assert (Ph : 0 < IZR (h - 1)) by (apply IZR_lt; lia).
  assert (Pw : 0 < IZR (w - 1)) by (apply IZR_lt; lia).
  cbn [scaled_box box_in_unit].
  repeat split; apply unit_quotient; assumption.
Qed.

Lemma normalize_bboxes_unit_witness :
  normalize_bboxes (map box_row [(0, 0, 4, 2)]) 5 3 =
  Ok (map (fun b => box_row (scaled_box 5 3 b)) [(0, 0, 4, 2)]) /\
  forall b, box_in_image 5 3 b -> box_in_unit (scaled_box 5 3 b).
Proof. apply (normalize_bboxes_unit [(0, 0, 4, 2)] 5 3); lia. Defined.

(** X12: on an image of one row [normalize_bboxes] divides by zero without
    raising: a box from row 0 down to a row y2 > 0 gets the relative rows
    NaN and +Inf. *)
Theorem normalize_bboxes_single_row (x1 y2 x2 : R) (w : Z) :
  0 < y2 -> w <> 1%Z ->
  normalize_bboxes [box_row (0, x1, y2, x2)] 1 w =
  Ok [[NaN; Fin (x1 / IZR (w - 1)); PInf; Fin (x2 / IZR (w - 1))]].
Proof.
  intros Hy Hw.
  assert (Nw : IZR (w - 1) <> 0) by (apply not_0_IZR; lia).
  unfold normalize_bboxes. cbn [box_row bcast_checked mapM bind].
  change (1 - 1)%Z with 0%Z.
  cbn [List.length Nat.eqb combine mapM bind fst snd].
  rewrite (fdiv_fin x1 _ Nw), (fdiv_fin x2 _ Nw). unfold fdiv.
  destruct (Req_dec_T 0 0) as [_|N]; [|contradiction].
  rewrite Rsgn_0. unfold Rsgn.
  destruct (total_order_T y2 0) as [[H|H]|H]; try lra. reflexivity.
Qed.

Lemma normalize_bboxes_single_row_witness :
  normalize_bboxes [box_row (0, 0, 1, 2)] 1 3 =
  Ok [[NaN; Fin (0 / IZR (3 - 1)); PInf; Fin (2 / IZR (3 - 1))]].
Proof. apply (normalize_bboxes_single_row 0 1 2 3); [lra | lia]. Defined.

Lemma box_row_columns (bs : list (R * R * R * R)) :
  map box_row bs =
  map (fun b => [Fin (fst (fst (fst b))); Fin (snd (fst (fst b)));
                 Fin (snd (fst b)); Fin (snd b)]) bs.
Proof. apply map_ext. now intros [[[y1 x1] y2] x2]. Qed.

(** X13: [pts_to_bbox] pairs every box with every instance.  The result has
    one block per box; in block [b] the landmark [k] of instance [i] is the
    landmark minus the top-left corner (x1, y1) of box [b], so a landmark
    that is NaN stays NaN in every box. *)
Theorem pts_to_bbox_entries (points : list (list xy))
  (bs : list (R * R * R * R)) :
  exists box_points,
    pts_to_bbox points (map box_row bs) = Ok box_points /\
    List.length box_points = List.length bs /\
    Forall (fun block => List.length block = List.length points) box_points /\
    forall b i k y1 x1 y2 x2 inst p,
      nth_error bs b = Some (y1, x1, y2, x2) ->
      nth_error points i = Some inst ->
      nth_error inst k = Some p ->
      entry3 box_points b i k = Some (xy_sub p (Fin x1, Fin y1)) /\
      (nan_pt p -> entry3 box_points b i k = Some (NaN, NaN)).
Proof.
  rewrite box_row_columns.
  rewrite (pts_to_bbox_unfold
             (fun b => Fin (fst (fst (fst b))))
             (fun b => Fin (snd (fst (fst b))))
             (fun b => Fin (snd (fst b))) (fun b => Fin (snd b))).
  eexists. split; [reflexivity|]. split; [apply length_map|]. split.
  - apply Forall_map, Forall_forall. intros b _. apply length_map.
  - intros b i k y1 x1 y2 x2 inst p Hb Hi Hk. unfold entry3.
    rewrite nth_error_map, Hb. cbn [option_map obind].
    rewrite nth_error_map, Hi. cbn [option_map obind].
    rewrite nth_error_map, Hk. cbn [option_map fst snd].
    split; [reflexivity|]. intros [Hx Hy]. destruct p as [px py].
    cbn [fst snd] in Hx, Hy. subst. reflexivity.
Qed.

(** ** Confidence maps: range, layout and edge cases *)

Lemma sq_diff_cases (g : R) (c : f32) :
  (exists x, c = Fin x /\ fsquare (fsub (Fin g) c) = Fin ((g - x) * (g - x))) \/
  (is_finite c = false /\
   (fsquare (fsub (Fin g) c) = PInf \/ fsquare (fsub (Fin g) c) = NaN)).
Proof.
  destruct c as [x| | |].
  - left. exists x. split; reflexivity.
  - right. split; [reflexivity | left; reflexivity].
  - right. split; [reflexivity | left; reflexivity].
  - right. split; [reflexivity | right; reflexivity].
Qed.

Lemma confmap_tail_inf (c : R) :
  0 <= c -> nan_to_zero (fexp (fdiv (fneg PInf) (Fin c))) = Fin 0.
Proof.
  intros Hc. cbn [fneg fdiv]. destruct (Rlt_dec c 0); [lra | reflexivity].
Qed.

Lemma confmap_tail_fin (c x : R) :
  0 <= c -> 0 <= x ->
  exists v, nan_to_zero (fexp (fdiv (fneg (Fin x)) (Fin c))) = Fin v /\
            0 <= v <= 1 /\ (c = 0 -> v = 0) /\
            (c <> 0 -> v = exp (- x / c)).
Proof.
  intros Hc Hx. cbn [fneg fdiv]. destruct (Req_dec_T c 0) as [E|N].
  - exists 0. unfold Rsgn.
    destruct (total_order_T (- x) 0) as [[H|H]|H]; [| |exfalso; lra]; cbn;
      (split; [reflexivity|]); (split; [lra|]); split;
      (reflexivity || contradiction).
  - exists (exp (- x / c)). cbn. split; [reflexivity|].
    split; [|split; [contradiction | reflexivity]].
    split; [left; apply exp_pos|].
    assert (Hle : - x / c <= 0).
    { unfold Rdiv. assert (0 < / c) by (apply Rinv_0_lt_compat; lra). nra. }
    destruct Hle as [Hlt|Heq].
    + left. rewrite <- exp_0. now apply exp_increasing.
    + rewrite Heq, exp_0. lra.
Qed.

Lemma two_sigma_sq (sigma : R) : 0 <= 2 * sigma ^ 2.
Proof. nra. Qed.

Lemma sum_sq_nonneg (a b : R) : 0 <= a * a + b * b.
Proof. nra. Qed.

Lemma confmap_value_unit (sigma gx gy : R) (p : xy) :
  unit_value (confmap_value sigma (Fin gx) (Fin gy) p).
Proof.
  unfold confmap_value. pose proof (two_sigma_sq sigma) as Hc.
  destruct (sq_diff_cases gx (fst p)) as [[x [_ ->]]|[_ [->| ->]]];
    destruct (sq_diff_cases gy (snd p)) as [[y [_ ->]]|[_ [->| ->]]];
    cbn [fadd];
    try (rewrite confmap_tail_inf by exact Hc; exists 0; split; [reflexivity | lra]);
    try (exists 0; split; [reflexivity | lra]).
  destruct (confmap_tail_fin (2 * sigma ^ 2)
              ((gx - x) * (gx - x) + (gy - y) * (gy - y)) Hc)
    as [v [-> [Hv _]]]; [apply sum_sq_nonneg|].
  exists v. split; [reflexivity | exact Hv].
Qed.


Lemma confmap_value_sigma0 (gx gy : R) (p : xy) :
  confmap_value 0 (Fin gx) (Fin gy) p = Fin 0.
Proof.
  unfold confmap_value. pose proof (two_sigma_sq 0) as Hc.
  destruct (sq_diff_cases gx (fst p)) as [[x [_ ->]]|[_ [->| ->]]];
    destruct (sq_diff_cases gy (snd p)) as [[y [_ ->]]|[_ [->| ->]]];
    cbn [fadd];
    try (now rewrite confmap_tail_inf by exact Hc);
    try reflexivity.
  destruct (confmap_tail_fin (2 * 0 ^ 2)
              ((gx - x) * (gx - x) + (gy - y) * (gy - y)) Hc)
    as [v [-> [_ [Hv _]]]]; [apply sum_sq_nonneg|].
  f_equal. apply Hv. ring.
Qed.

Lemma range_values_fin (limit : Z) (delta : R) (a : nat) (g : f32) :
  nth_error (range_values limit delta) a = Some g ->
  g = Fin (INR a * delta) /\ (a < range_size limit delta)%nat.
Proof.
  intros H.
  assert (L : (a < range_size limit delta)%nat).
  { rewrite <- range_values_length. apply nth_error_Some. congruence. }
  rewrite (range_values_nth _ _ _ L) in H. injection H as <-. now split.
Qed.

(** An entry of the maps that exists, read through the inputs. *)
Lemma make_confmaps_entry_inv (points : list (list xy)) (h w : Z) (s sigma : R) :
  0 < s -> (0 <= h)%Z -> (0 <= w)%Z ->
  exists cm,
    make_confmaps points h w s sigma = Ok cm /\
    (forall i a b k v,
        entry4 cm i a b k = Some v ->
        exists inst p,
          nth_error points i = Some inst /\ nth_error inst k = Some p /\
          (a < range_size h (1 / s))%nat /\ (b < range_size w (1 / s))%nat /\
          v = confmap_value sigma (Fin (INR b * (1 / s)))
                (Fin (INR a * (1 / s))) p) /\
    (forall i a b k inst p,
        nth_error points i = Some inst -> nth_error inst k = Some p ->
        (a < range_size h (1 / s))%nat -> (b < range_size w (1 / s))%nat ->
        entry4 cm i a b k =
        Some (confmap_value sigma (Fin (INR b * (1 / s)))
                (Fin (INR a * (1 / s))) p)).
Proof.
  intros Hs Hh Hw.
  destruct (make_confmaps_entry points h w s sigma Hs Hh Hw) as [cm [Hcm E]].
  exists cm. split; [exact Hcm|]. split.
  - intros i a b k v. rewrite E.
    destruct (nth_error points i) as [inst|] eqn:Ei; [|discriminate].
    cbn [obind].
    destruct (nth_error (range_values h (1 / s)) a) as [gy|] eqn:Ea;
      [|discriminate].
    destruct (nth_error (range_values w (1 / s)) b) as [gx|] eqn:Eb;
      [|discriminate].
    cbn [obind].
    destruct (nth_error inst k) as [p|] eqn:Ek; [|discriminate].
    cbn [option_map]. intros [= <-].
    apply range_values_fin in Ea as [-> La].
    apply range_values_fin in Eb as [-> Lb].
    exists inst, p. repeat split; (assumption || reflexivity).
  - intros i a b k inst p Hi Hk Ha Hb. rewrite E, Hi. cbn [obind].
    rewrite (range_values_nth _ _ _ Ha), (range_values_nth _ _ _ Hb).
    cbn [obind]. now rewrite Hk.
Qed.

(** X14: every value [make_confmaps] writes is a number between 0 and 1,
    for all points (NaN and infinite coordinates included) and every sigma. *)
Theorem make_confmaps_unit_range (points : list (list xy)) (h w : Z)
  (s sigma : R) :
  0 < s -> (0 <= h)%Z -> (0 <= w)%Z ->
  exists cm,
    make_confmaps points h w s sigma = Ok cm /\
    forall i a b k v, entry4 cm i a b k = Some v -> unit_value v.
Proof.
  intros Hs Hh Hw.
  destruct (make_confmaps_entry_inv points h w s sigma Hs Hh Hw)
    as [cm [Hcm [Hinv _]]].
  exists cm. split; [exact Hcm|]. intros i a b k v Hv.
  destruct (Hinv _ _ _ _ _ Hv) as [inst [p [_ [_ [_ [_ ->]]]]]].
  apply confmap_value_unit.
Qed.

Lemma make_confmaps_unit_range_witness :
  exists cm,
    make_confmaps one_landmark 8 8 1 1 = Ok cm /\
    forall i a b k v, entry4 cm i a b k = Some v -> unit_value v.
Proof. apply (make_confmaps_unit_range one_landmark 8 8 1 1); [lra | lia | lia]. Defined.

(** X15: the layout of the maps is (instances, rows, columns, landmarks):
    one map per instance, ceil(height * scale) rows of ceil(width * scale)
    pixels, and one channel per landmark of the instance.  The scale is 2^k
    and the image dimensions are below 2^24, for which the sample counts of
    [tf.range] are exact. *)
Theorem make_confmaps_layout (points : list (list xy)) (h w : Z) (s sigma : R) :
  pow2_scale s -> (0 <= h < 2 ^ 24)%Z -> (0 <= w < 2 ^ 24)%Z ->
  exists cm,
    make_confmaps points h w s sigma = Ok cm /\
    List.length cm = List.length points /\
    forall i inst,
      nth_error points i = Some inst ->
      exists m,
        nth_error cm i = Some m /\
        List.length m = Z.to_nat (Zceil (IZR h * s)) /\
        Forall (fun row =>
                  List.length row = Z.to_nat (Zceil (IZR w * s)) /\
                  Forall (fun px => List.length px = List.length inst) row) m.
Proof.
  intros Hp2 [Hh _] [Hw _]. pose proof (pow2_scale_pos s Hp2) as Hs.
  rewrite (make_confmaps_unfold points h w s sigma Hs Hh Hw).
  eexists. split; [reflexivity|]. split; [apply length_map|].
  intros i inst Hi. rewrite nth_error_map, Hi. cbn [option_map].
  eexists. split; [reflexivity|].
  split; [rewrite length_map, range_values_length;
          now apply range_size_scale|].
  apply Forall_map, Forall_forall. intros gy _.
  split; [rewrite length_map, range_values_length;
          now apply range_size_scale|].
  apply Forall_map, Forall_forall. intros gx _. apply length_map.
Qed.

Lemma make_confmaps_layout_witness :
  exists cm,
    make_confmaps one_landmark 8 8 1 1 = Ok cm /\
    List.length cm = List.length one_landmark /\
    forall i inst,
      nth_error one_landmark i = Some inst ->
      exists m,
        nth_error cm i = Some m /\
        List.length m = Z.to_nat (Zceil (IZR 8 * 1)) /\
        Forall (fun row =>
                  List.length row = Z.to_nat (Zceil (IZR 8 * 1)) /\
                  Forall (fun px => List.length px = List.length inst) row) m.
Proof.
  apply (make_confmaps_layout one_landmark 8 8 1 1 pow2_scale_1); lia.
Defined.

(** X16: [make_confmaps] rejects a scale that is not positive, for an image
    with at least one row: a zero scale raises ZeroDivisionError in
    [1 / output_scale], a negative one makes [tf.range] step away from its
    limit, InvalidArgumentError. *)
Theorem make_confmaps_bad_scale (points : list (list xy)) (h w : Z)
  (s sigma : R) :
  (0 < h)%Z ->
  (s = 0 -> make_confmaps points h w s sigma = Raise ZeroDivisionError) /\
  (s < 0 -> make_confmaps points h w s sigma = Raise InvalidArgumentError).
Proof.
  intros Hh. unfold make_confmaps, py_truediv. split; intros Hs.
  - destruct (Req_dec_T s 0); [reflexivity | contradiction].
  - destruct (Req_dec_T s 0) as [E|_]; [lra|]. cbn [bind]. unfold tf_range.
    assert (Hd : 1 / s < 0).
    { unfold Rdiv. rewrite Rmult_1_l. now apply Rinv_lt_0_compat. }
    destruct (Req_dec_T (1 / s) 0); [lra|].
    destruct (Rlt_dec 0 (1 / s)); [lra|].
    destruct (Z.ltb_spec 0 h); [reflexivity | lia].
Qed.

Lemma make_confmaps_bad_scale_witness :
  (0 = 0 -> make_confmaps one_landmark 8 8 0 1 = Raise ZeroDivisionError) /\
  (0 < 0 -> make_confmaps one_landmark 8 8 0 1 = Raise InvalidArgumentError).
Proof. apply (make_confmaps_bad_scale one_landmark 8 8 0 1). lia. Defined.



(** X18: with sigma = 0 the maps are zero everywhere, also at the landmark:
    the exponent is a division by zero, which gives -Inf or NaN. *)
Theorem make_confmaps_sigma_zero (points : list (list xy)) (h w : Z) (s : R) :
  0 < s -> (0 <= h)%Z -> (0 <= w)%Z ->
  exists cm,
    make_confmaps points h w s 0 = Ok cm /\
    forall i a b k v, entry4 cm i a b k = Some v -> v = Fin 0.
Proof.
  intros Hs Hh Hw.
  destruct (make_confmaps_entry_inv points h w s 0 Hs Hh Hw)
    as [cm [Hcm [Hinv _]]].
  exists cm. split; [exact Hcm|]. intros i a b k v Hv.
  destruct (Hinv _ _ _ _ _ Hv) as [inst [p [_ [_ [_ [_ ->]]]]]].
  apply confmap_value_sigma0.
Qed.

Lemma make_confmaps_sigma_zero_witness :
  exists cm,
    make_confmaps one_landmark 8 8 1 0 = Ok cm /\
    forall i a b k v, entry4 cm i a b k = Some v -> v = Fin 0.
Proof. apply (make_confmaps_sigma_zero one_landmark 8 8 1); [lra | lia | lia]. Defined.



(** ** Part affinity fields: missing ends, order, direction, errors *)

Lemma paf_value_nan_unit (t : R) (gx gy : f32) (e : xy * xy) :
  xy_div (xy_sub (snd e) (fst e)) (norm (xy_sub (snd e) (fst e))) = (NaN, NaN) ->
  paf_value t gx gy e = (Fin 0, Fin 0).
Proof.
  intros U. unfold paf_value. cbv zeta. rewrite U.
  unfold dot, xy_scale, fge. cbn [fst snd fmul fadd fle andb].
  destruct (xy_sub (gx, gy) (fst e)) as [rx ry]. cbn [fst snd fmul fadd fle].
  reflexivity.
Qed.

Lemma fadd_nan_r (a : f32) : fadd a NaN = NaN.
Proof. now destruct a. Qed.

Lemma fdiv_nan_r (a : f32) : fdiv a NaN = NaN.
Proof. now destruct a. Qed.

Lemma is_nan_eq (a : f32) : is_nan a = true -> a = NaN.
Proof. destruct a; (reflexivity || discriminate). Qed.

Lemma paf_value_nan_end (t : R) (gx gy : f32) (e : xy * xy) :
  nan_end e -> paf_value t gx gy e = (Fin 0, Fin 0).
Proof.
  intros H. apply paf_value_nan_unit.
  assert (N : norm (xy_sub (snd e) (fst e)) = NaN).
  { destruct e as [[sx sy] [tx ty]]. unfold nan_end in H.
    cbn [fst snd] in H. unfold norm, xy_sub, fsub. cbn [fst snd].
    destruct H as [[H|H]|[H|H]]; apply is_nan_eq in H; subst;
      cbn [fneg]; rewrite ?fadd_nan_r; cbn [fadd fmul];
      rewrite ?fadd_nan_r; reflexivity. }
  unfold xy_div. rewrite N. now rewrite !fdiv_nan_r.
Qed.

Lemma flat_map_ext_in {A B : Type} (f g : A -> list B) (l : list A) :
  (forall a, In a l -> f a = g a) -> flat_map f l = flat_map g l.
Proof.
  intros H. rewrite !flat_map_concat_map. f_equal. now apply map_ext_in.
Qed.

Lemma edges_in_range_mid (p1 p2 : list (list xy)) (inst : list xy)
  (edges : list (nat * nat)) :
  edges_in_range (p1 ++ inst :: p2) edges -> edges_in_range (p1 ++ p2) edges.
Proof.
  unfold edges_in_range. intros H. apply Forall_app in H as [H1 H2].
  inversion H2; subst. apply Forall_app. now split.
Qed.

(** X20: an instance contributes nothing to an edge that has a NaN
    coordinate at one of its ends.  So an instance all of whose edges are
    such (for one, an instance without visible landmarks) can be removed from
    the points without changing the field. *)
Theorem make_pafs_missing_instance (p1 p2 : list (list xy)) (inst : list xy)
  (edges : list (nat * nat)) (h w : Z) (s t : R) :
  0 < s -> (0 < h)%Z -> (0 < w)%Z ->
  edges_in_range (p1 ++ inst :: p2) edges ->
  Forall (fun e => nan_end (ends inst e)) edges ->
  exists pafs,
    make_pafs (p1 ++ p2) edges h w s t = Ok pafs /\
    make_pafs (p1 ++ inst :: p2) edges h w s t = Ok pafs.
Proof.
  intros Hs Hh Hw He Hnan. eexists.
  split; [apply (make_pafs_unfold edges h w s t Hs Hh Hw);
          eapply edges_in_range_mid; exact He|].
  rewrite (make_pafs_unfold edges h w s t Hs Hh Hw _ He). f_equal.
  apply map_ext; intros gx. apply map_ext; intros gy.
  apply flat_map_ext_in. intros e Hin.
  rewrite Forall_forall in Hnan.
  assert (E : paf_sum (p1 ++ inst :: p2) t gx gy e =
              paf_sum (p1 ++ p2) t gx gy e).
  { change (inst :: p2) with ([inst] ++ p2). rewrite !paf_sum_app.
    unfold paf_sum at 2. cbn [map]. rewrite xy_sum_one.
    rewrite (paf_value_nan_end _ _ _ _ (Hnan e Hin)).
    now rewrite xy_add_0_l. }
  now rewrite E.
Qed.

Lemma make_pafs_missing_instance_witness :
  exists pafs,
    make_pafs ([] ++ horizontal_edge) [(0, 1)%nat] 4 4 1 1 = Ok pafs /\
    make_pafs ([] ++ [(NaN, NaN); (Fin 1, Fin 1)] :: horizontal_edge)
      [(0, 1)%nat] 4 4 1 1 = Ok pafs.
Proof.
  apply (make_pafs_missing_instance [] horizontal_edge
           [(NaN, NaN); (Fin 1, Fin 1)] [(0, 1)%nat] 4 4 1 1);
    try lra; try lia.
  - repeat constructor.
  - constructor; [|constructor]. left. left. reflexivity.
Defined.

(** X21: an edge that names a landmark some instance does not have makes
    [make_pafs] raise InvalidArgumentError, whatever the other arguments. *)
Theorem make_pafs_edge_out_of_range (points : list (list xy))
  (edges : list (nat * nat)) (h w : Z) (s t : R) :
  (exists inst e, In inst points /\ In e edges /\
                  ((List.length inst <= fst e)%nat \/
                   (List.length inst <= snd e)%nat)) ->
  make_pafs points edges h w s t = Raise InvalidArgumentError.
Proof.
  intros [inst [e [Hi [He Hlen]]]]. unfold make_pafs, gather_edges.
  assert (Hidx : forall (l : list xy) (i : nat) (e' : exn),
             index l i = Raise e' -> e' = InvalidArgumentError).
  { intros l i e'. unfold index. destruct (nth_error l i); congruence. }
  assert (Hedge : forall (l : list xy) (ed : nat * nat) (e' : exn),
             (src <- index l (fst ed) ;; dst <- index l (snd ed) ;;
              Ok (src, dst)) = Raise e' -> e' = InvalidArgumentError).
  { intros l ed e'. destruct (index l (fst ed)) eqn:E1; cbn [bind].
    - destruct (index l (snd ed)) eqn:E2; cbn [bind]; [discriminate|].
      intros [= <-]. eapply Hidx, E2.
    - intros [= <-]. eapply Hidx, E1. }
  rewrite (mapM_raise _ InvalidArgumentError); [reflexivity| |].
  - exists inst. split; [exact Hi|]. apply mapM_raise.
    + exists e. split; [exact He|].
      destruct (index inst (fst e)) eqn:E1; cbn [bind].
      * destruct Hlen as [Hlen|Hlen].
        -- apply nth_error_None in Hlen. unfold index in E1.
           rewrite Hlen in E1. discriminate.
        -- apply nth_error_None in Hlen. unfold index. now rewrite Hlen.
      * f_equal. eapply Hidx, E1.
    + intros ed e' _. apply Hedge.
  - intros l e' _ H.
    assert (G : forall eds, mapM (fun ed =>
                    src <- index l (fst ed) ;; dst <- index l (snd ed) ;;
                    Ok (src, dst)) eds = Raise e' ->
                e' = InvalidArgumentError).
    { induction eds as [|ed eds IH]; cbn [mapM]; [discriminate|].
      destruct (src <- index l (fst ed) ;; dst <- index l (snd ed) ;;
                Ok (src, dst)) eqn:E; cbn [bind].
      - destruct (mapM _ eds); cbn [bind]; [discriminate|].
        intros [= <-]. now apply IH.
      - intros [= <-]. eapply Hedge, E. }
    exact (G edges H).
Qed.

Lemma make_pafs_edge_out_of_range_witness :
  make_pafs horizontal_edge [(0, 2)%nat] 4 4 1 1 = Raise InvalidArgumentError.
Proof.
  apply (make_pafs_edge_out_of_range horizontal_edge [(0, 2)%nat] 4 4 1 1).
  exists [(Fin 10, Fin 10); (Fin 20, Fin 10)], (0, 2)%nat.
  split; [now left|]. split; [now left|]. right. cbn. lia.
Defined.



Lemma xy_add_comm (a b : xy) : xy_add a b = xy_add b a.
Proof. unfold xy_add. f_equal; apply fadd_comm. Qed.

Lemma xy_sum_cons (v : xy) (l : list xy) : xy_sum (v :: l) = xy_add v (xy_sum l).
Proof.
  change (v :: l) with ([v] ++ l). now rewrite xy_sum_app, xy_sum_one.
Qed.

Lemma xy_sum_perm (l l' : list xy) : Permutation l l' -> xy_sum l = xy_sum l'.
Proof.
  induction 1 as [|v l l' _ IH|u v l|l l' l'' _ IH1 _ IH2].
  - reflexivity.
  - now rewrite !xy_sum_cons, IH.
  - rewrite !xy_sum_cons, <- !xy_add_assoc. f_equal. apply xy_add_comm.
  - now rewrite IH1.
Qed.

(** X23: the field does not depend on the order of the instances. *)
Theorem make_pafs_instance_order (points points' : list (list xy))
  (edges : list (nat * nat)) (h w : Z) (s t : R) :
  0 < s -> (0 < h)%Z -> (0 < w)%Z ->
  edges_in_range points edges ->
  Permutation points points' ->
  exists pafs,
    make_pafs points edges h w s t = Ok pafs /\
    make_pafs points' edges h w s t = Ok pafs.
Proof.
  intros Hs Hh Hw He Hperm.
  assert (He' : edges_in_range points' edges)
    by (unfold edges_in_range in *; eapply Permutation_Forall; eassumption).
  eexists. split; [apply (make_pafs_unfold edges h w s t Hs Hh Hw _ He)|].
  rewrite (make_pafs_unfold edges h w s t Hs Hh Hw _ He'). f_equal.
  apply map_ext; intros gx. apply map_ext; intros gy.
  apply flat_map_ext; intros e.
  assert (E : paf_sum points' t gx gy e = paf_sum points t gx gy e).
  { unfold paf_sum. apply xy_sum_perm, Permutation_map.
    now apply Permutation_sym. }
  now rewrite E.
Qed.

Lemma make_pafs_instance_order_witness :
  exists pafs,
    make_pafs hidden_instance [(0, 1)%nat] 4 4 1 1 = Ok pafs /\
    make_pafs (rev hidden_instance) [(0, 1)%nat] 4 4 1 1 = Ok pafs.
Proof.
  apply (make_pafs_instance_order hidden_instance (rev hidden_instance)
           [(0, 1)%nat] 4 4 1 1); try lra; try lia.
  - repeat constructor.
  - apply Permutation_rev.
Defined.

Lemma fabs_nonneg (a : f32) (t : R) : t < 0 -> fle (fabs a) (Fin t) = false.
Proof.
  intros Ht. destruct a as [x| | |]; try reflexivity.
  cbn [fabs fle]. apply Rleb_false. pose proof (Rabs_pos x). lra.
Qed.

Lemma fmul_zero_no_inf (u : f32) :
  no_inf u -> nan_to_zero (fmul (Fin 0) u) = Fin 0.
Proof.
  intros [H1 H2]. destruct u as [x| | |]; try contradiction; cbn.
  - f_equal. ring.
  - reflexivity.
Qed.

Lemma paf_value_negative_threshold (t : R) (gx gy : f32) (e : xy * xy) :
  t < 0 -> paf_value t gx gy e = (Fin 0, Fin 0).
Proof.
  intros Ht. unfold paf_value. cbv zeta.
  rewrite fabs_nonneg by exact Ht. rewrite andb_false_r.
  unfold xy_scale. cbn [cast_bool fst snd].
  destruct (unit_vector_no_inf (xy_sub (snd e) (fst e))) as [Hx Hy].
  now rewrite !fmul_zero_no_inf.
Qed.

Lemma xy_sum_zeros {A : Type} (l : list A) :
  xy_sum (map (fun _ => (Fin 0, Fin 0)) l) = (Fin 0, Fin 0).
Proof.
  induction l as [|a l IH]; [reflexivity|].
  cbn [map]. rewrite xy_sum_cons, IH. apply xy_add_0_l.
Qed.

(** X24: with a negative [distance_threshold] the field is zero at every
    pixel, for all points: no distance across an edge is below it. *)
Theorem make_pafs_negative_threshold (points : list (list xy))
  (edges : list (nat * nat)) (h w : Z) (s t : R) :
  0 < s -> (0 < h)%Z -> (0 < w)%Z ->
  edges_in_range points edges ->
  t < 0 ->
  exists pafs,
    make_pafs points edges h w s t = Ok pafs /\
    Forall (Forall (Forall (fun v => v = Fin 0))) pafs.
Proof.
  intros Hs Hh Hw He Ht. eexists.
  split; [apply (make_pafs_unfold edges h w s t Hs Hh Hw _ He)|].
  apply Forall_map, Forall_forall. intros gx _.
  apply Forall_map, Forall_forall. intros gy _.
  apply Forall_forall. intros v Hv. apply in_flat_map in Hv as [e [_ Hv]].
  assert (E : paf_sum points t gx gy e = (Fin 0, Fin 0)).
  { unfold paf_sum.
    rewrite (map_ext _ (fun _ => (Fin 0, Fin 0)))
      by (intros inst; now apply paf_value_negative_threshold).
    apply xy_sum_zeros. }
  rewrite E in Hv. destruct Hv as [<-|[<-|[]]]; reflexivity.
Qed.

Lemma make_pafs_negative_threshold_witness :
  exists pafs,
    make_pafs horizontal_edge [(0, 1)%nat] 4 4 1 (-1) = Ok pafs /\
    Forall (Forall (Forall (fun v => v = Fin 0))) pafs.
Proof.
  apply (make_pafs_negative_threshold horizontal_edge [(0, 1)%nat] 4 4 1 (-1));
    try lra; try lia. repeat constructor.
Defined.















(** ** Datasets from lists and arrays *)

Lemma chunks_length (n size : nat) (l : list f32) :
  List.length (chunks n size l) = n.
Proof.
  revert l. induction n as [|n IH]; intros l; [reflexivity|].
  cbn [chunks List.length]. now rewrite IH.
Qed.

Lemma concat_chunks (n size : nat) (l : list f32) :
  List.length l = (n * size)%nat -> concat (chunks n size l) = l.
Proof.
  revert l. induction n as [|n IH]; intros l H.
  - destruct l; [reflexivity | discriminate].
  - cbn [chunks concat]. rewrite IH.
    + apply firstn_skipn.
    + rewrite length_skipn. lia.
Qed.

Lemma dtype_eqb_eq (a b : dtype) : dtype_eqb a b = true <-> a = b.
Proof. destruct a, b; split; (reflexivity || discriminate). Qed.

Lemma astype_shape (t : dtype) (p : ndarray) : shape (astype t p) = shape p.
Proof. unfold astype. now destruct (dtype_eqb (arr_dtype p) t). Qed.

Lemma astype_dtype (t : dtype) (p : ndarray) : arr_dtype (astype t p) = t.
Proof.
  unfold astype. destruct (dtype_eqb (arr_dtype p) t) eqn:E; [|reflexivity].
  now apply dtype_eqb_eq.
Qed.

Lemma astype_same (t : dtype) (p : ndarray) : arr_dtype p = t -> astype t p = p.
Proof.
  intros H. unfold astype. apply dtype_eqb_eq in H. now rewrite H.
Qed.

(** X26: [make_points_dataset] on a list decides by the rank of the first
    array only.  If that rank is 2 every array of the list gets a leading
    axis of length 1; if it is 3 the arrays keep their shape; any other rank
    raises ValueError and an empty list raises IndexError.  Every element
    comes out with the type of the first array: an array that has this type
    already keeps its contents, an array of another type is converted. *)
Theorem make_points_dataset_list (a : ndarray) (items : list ndarray) :
  make_points_dataset (PyList []) = Raise IndexError /\
  (ndim a = 2%nat ->
   exists ds,
     make_points_dataset (PyList (a :: items)) = Ok ds /\
     output_types ds = arr_dtype a /\
     List.length (elements ds) = S (List.length items) /\
     forall i p, nth_error (a :: items) i = Some p ->
       exists q, nth_error (elements ds) i = Some q /\
                 shape q = 1%nat :: shape p /\
                 arr_dtype q = arr_dtype a /\
                 (arr_dtype p = arr_dtype a -> flat q = flat p)) /\
  (ndim a = 3%nat ->
   exists ds,
     make_points_dataset (PyList (a :: items)) = Ok ds /\
     output_types ds = arr_dtype a /\
     List.length (elements ds) = S (List.length items) /\
     forall i p, nth_error (a :: items) i = Some p ->
       exists q, nth_error (elements ds) i = Some q /\
                 shape q = shape p /\
                 arr_dtype q = arr_dtype a /\
                 (arr_dtype p = arr_dtype a -> q = p)) /\
  (ndim a <> 2%nat -> ndim a <> 3%nat ->
   make_points_dataset (PyList (a :: items)) = Raise ValueError).
Proof.
  split; [reflexivity|]. split; [|split].
  - intros H. cbn [make_points_dataset first_item bind]. rewrite H.
    cbn [Nat.eqb]. eexists. split; [reflexivity|].
    cbn [from_generator output_types elements].
    split; [reflexivity|].
    split; [now rewrite !length_map|].
    intros i p Hp. rewrite !nth_error_map, Hp. cbn [option_map].
    eexists. split; [reflexivity|].
    rewrite astype_shape, astype_dtype.
    split; [reflexivity|]. split; [reflexivity|].
    intros E. now rewrite astype_same.
  - intros H. cbn [make_points_dataset first_item bind]. rewrite H.
    cbn [Nat.eqb]. eexists. split; [reflexivity|].
    cbn [from_generator output_types elements].
    split; [reflexivity|].
    split; [now rewrite length_map|].
    intros i p Hp. rewrite nth_error_map, Hp. cbn [option_map].
    eexists. split; [reflexivity|].
    rewrite astype_shape, astype_dtype.
    split; [reflexivity|]. split; [reflexivity|].
    intros E. now apply astype_same.
  - intros H2 H3. cbn [make_points_dataset first_item bind].
    apply Nat.eqb_neq in H2, H3. now rewrite H2, H3.
Qed.

(** X27: [make_image_dataset] on an array of shape (n, ...) yields n
    elements of the remaining shape and of the array's type, and the
    elements, one after the other, are the array's contents; an array of
    rank 0 raises ValueError. *)
Theorem make_image_dataset_slices (a : ndarray) :
  (shape a = [] -> make_image_dataset (NpArray a) = Raise ValueError) /\
  forall n rest,
    shape a = n :: rest ->
    exists ds,
      make_image_dataset (NpArray a) = Ok ds /\
      output_types ds = arr_dtype a /\
      List.length (elements ds) = n /\
      Forall (fun e => shape e = rest /\ arr_dtype e = arr_dtype a)
        (elements ds) /\
      (List.length (flat a) = (n * fold_right Nat.mul 1%nat rest)%nat ->
       concat (map flat (elements ds)) = flat a).
Proof.
  split.
  - intros H. cbn. unfold from_tensor_slices. now rewrite H.
  - intros n rest H. cbn. unfold from_tensor_slices. rewrite H.
    eexists. split; [reflexivity|]. cbn [output_types elements].
    split; [reflexivity|].
    split; [now rewrite length_map, chunks_length|]. split.
    + apply Forall_map, Forall_forall. intros c _. split; reflexivity.
    + intros L. rewrite map_map. cbn [flat]. rewrite map_id.
      now apply concat_chunks.
Qed.

(** ** sleap.util *)

Lemma attr_to_dtype_loop_ok (fields : list (string * field_type)) :
  Forall supported fields ->
  forall acc, attr_to_dtype_loop fields acc = Ok (acc ++ map dtype_entry fields).
Proof.
  induction 1 as [|[name ty] fields Hf _ IH]; intros acc.
  - cbn. now rewrite app_nil_r.
  - unfold supported in Hf. cbn [snd] in Hf.
    destruct ty; try contradiction; cbn [attr_to_dtype_loop map];
      rewrite IH, <- app_assoc; reflexivity.
Qed.

Lemma attr_to_dtype_loop_raise (fields : list (string * field_type)) :
  Exists (fun f => ~ supported f) fields ->
  forall acc, attr_to_dtype_loop fields acc = Raise TypeError.
Proof.
  induction fields as [|[name ty] fields IH]; intros Hex acc.
  - inversion Hex.
  - destruct ty; cbn [attr_to_dtype_loop]; try reflexivity;
      apply IH; inversion Hex as [f l Hf|f l Hl]; subst;
      (assumption || (exfalso; apply Hf; exact I)).
Qed.

Lemma supported_dec (f : string * field_type) : {supported f} + {~ supported f}.
Proof.
  unfold supported. destruct (snd f); (now left) || (right; intros []).
Qed.

(** X28: [attr_to_dtype] succeeds exactly on classes whose fields are all
    annotated with str, int, float or bool.  Then the dtype has one entry per
    field, in the order of the fields and under their names, a str field as
    a variable-length string; a single field without annotation or of any
    other type raises TypeError, wherever it stands. *)
Theorem attr_to_dtype_supported (fields : list (string * field_type)) :
  (Forall supported fields ->
   attr_to_dtype fields = Ok (map dtype_entry fields) /\
   map fst (map dtype_entry fields) = map fst fields) /\
  (Exists (fun f => ~ supported f) fields ->
   attr_to_dtype fields = Raise TypeError) /\
  (forall d, attr_to_dtype fields = Ok d -> Forall supported fields).
Proof.
  split; [|split].
  - intros H. split; [apply (attr_to_dtype_loop_ok fields H [])|].
    rewrite map_map. apply map_ext. intros [name ty]. now destruct ty.
  - intros H. apply (attr_to_dtype_loop_raise fields H []).
  - intros d Hd.
    destruct (Forall_Exists_dec supported supported_dec fields) as [H|H];
      [exact H|].
    unfold attr_to_dtype in Hd.
    rewrite (attr_to_dtype_loop_raise fields H []) in Hd. discriminate.
Qed.

(** X29: [try_open_file] never lets a FileNotFoundError out, and after a
    first FileNotFoundError it calls the callable a second time with the
    same arguments: if that call returns, its value is the result, in the
    state the second call left.  Seen through a callable that records its
    calls: one call when the callable returns or raises another exception,
    two calls with the original arguments (no basename) and the result None
    when it raises FileNotFoundError. *)
Theorem try_open_file_retry {W Args A : Type}
  (open : Args -> W -> outcome A * W) (args : Args) (w : W) :
  fst (try_open_file open args w) <> Raises FileNotFoundError /\
  (forall w1 a w2,
      open args w = (Raises FileNotFoundError, w1) ->
      open args w1 = (Returns a, w2) ->
      try_open_file open args w = (Returns (Some a), w2)) /\
  (forall f : Args -> outcome A,
      (f args = Raises FileNotFoundError ->
       try_open_file (logged f) args [] = (Returns None, [args; args])) /\
      (forall a, f args = Returns a ->
       try_open_file (logged f) args [] = (Returns (Some a), [args])) /\
      (forall n, f args = Raises (OtherError n) ->
       try_open_file (logged f) args [] = (Raises (OtherError n), [args]))).
Proof.
  split; [|split].
  - unfold try_open_file.
    destruct (open args w) as [[a|[|n]] w1]; cbn [fst]; try discriminate.
    destruct (open args w1) as [[a|[|n]] w2]; cbn [fst]; discriminate.
  - intros w1 a w2 E1 E2. unfold try_open_file. now rewrite E1, E2.
  - intros f. unfold try_open_file, logged. cbn [app].
    split; [|split].
    + intros E. now rewrite E.
    + intros a E. now rewrite E.
    + intros n E. now rewrite E.
Qed.

(** A file that is missing at the first call and present at the second: the
    state counts the calls, and the second call returns its count. *)
Lemma try_open_file_retry_witness :
  try_open_file
    (fun (_ : string) (calls : nat) =>
       match calls with
       | O => (@Raises nat FileNotFoundError, 1%nat)
       | S _ => (Returns calls, S calls)
       end)
    "labels.h5"%string 0%nat = (Returns (Some 1%nat), 2%nat).
Proof.
  apply (proj1 (proj2 (try_open_file_retry
                         (fun (_ : string) (calls : nat) =>
                            match calls with
                            | O => (@Raises nat FileNotFoundError, 1%nat)
                            | S _ => (Returns calls, S calls)
                            end)
                         "labels.h5"%string 0%nat)) 1%nat 1%nat 2%nat);
    reflexivity.
Defined.
